(** * Little Ai: the voice session manager and its helpers

    A shallow embedding of [src/views/LiveView.tsx] (the real-time voice
    session: [startSession], [stopSession], the capture callback and the
    inbound-message handler) and of the helpers of
    [src/services/geminiService.ts] it relies on ([encodeBase64],
    [decodeBase64], [decodeAudioData], [callWithRetry]). *)

From Stdlib Require Import ZArith NArith List String Ascii Bool Lia.
From Stdlib.Strings Require Import Byte.
From Stdlib Require Import SpecFloat.
From stdpp Require Import base option list.

Import ListNotations.
Local Open Scope string_scope.
Local Open Scope list_scope.

(** ** Base64: [btoa], [atob], [encodeBase64], [decodeBase64]

    A JavaScript "binary string" is a string whose code units are all
    below 256; it is a [string] here (8-bit characters).  [btoa] and
    [atob] are the browser's; they follow the HTML standard's
    forgiving-base64 encode and decode. *)

Module Base64.

Definition alphabet : string :=
  "ABCDEFGHIJKLMNOPQRSTUVWXYZabcdefghijklmnopqrstuvwxyz0123456789+/".

Definition pad : ascii := "="%char.

(** The character of a 6-bit value. *)
Definition b64_char (n : N) : ascii :=
  match String.get (N.to_nat n) alphabet with
  | Some c => c
  | None => pad
  end.

Fixpoint index_from (i : N) (c : ascii) (s : string) : option N :=
  match s with
  | EmptyString => None
  | String d s' => if Ascii.eqb c d then Some i else index_from (N.succ i) c s'
  end.

(** The 6-bit value of a character of the alphabet, [None] outside it. *)
Definition b64_value (c : ascii) : option N := index_from 0%N c alphabet.

(** [btoa] on the code units of its argument: three bytes give four
    characters, a last group of one or two bytes is padded with [=]. *)
Fixpoint encode_groups (bs : list N) : list ascii :=
  match bs with
  | [] => []
  | [a] =>
      [b64_char (a / 4); b64_char ((a mod 4) * 16); pad; pad]
  | [a; b] =>
      [b64_char (a / 4); b64_char ((a mod 4) * 16 + b / 16);
       b64_char ((b mod 16) * 4); pad]
  | a :: b :: c :: rest =>
      b64_char (a / 4) :: b64_char ((a mod 4) * 16 + b / 16)
      :: b64_char ((b mod 16) * 4 + c / 64) :: b64_char (c mod 64)
      :: encode_groups rest
  end%N.

(** The 6-bit values [btoa] writes before the padding. *)
Fixpoint sextets_of (bs : list N) : list N :=
  match bs with
  | [] => []
  | [a] => [a / 4; (a mod 4) * 16]
  | [a; b] => [a / 4; (a mod 4) * 16 + b / 16; (b mod 16) * 4]
  | a :: b :: c :: rest =>
      a / 4 :: (a mod 4) * 16 + b / 16 :: (b mod 16) * 4 + c / 64
      :: c mod 64 :: sextets_of rest
  end%N.

Definition btoa (binary : string) : string :=
  string_of_list_ascii
    (encode_groups (map N_of_ascii (list_ascii_of_string binary))).

(** ASCII whitespace: TAB, LF, FF, CR and SPACE. *)
Definition is_ascii_whitespace (c : ascii) : bool :=
  let n := N_of_ascii c in
  ((n =? 9) || (n =? 10) || (n =? 12) || (n =? 13) || (n =? 32))%N.

Definition is_padding_tail (d : list ascii) : bool :=
  match d with
  | [c] => Ascii.eqb c pad
  | [c; c'] => Ascii.eqb c pad && Ascii.eqb c' pad
  | _ => false
  end.

(** "If data ends with one or two [=], remove them." *)
Fixpoint strip_padding (d : list ascii) : list ascii :=
  if is_padding_tail d then []
  else match d with
       | [] => []
       | c :: d' => c :: strip_padding d'
       end.

Fixpoint values_of (d : list ascii) : option (list N) :=
  match d with
  | [] => Some []
  | c :: d' =>
      match b64_value c, values_of d' with
      | Some v, Some vs => Some (v :: vs)
      | _, _ => None
      end
  end.

(** The bit buffer of the standard: four 6-bit values give three bytes;
    with 12 bits left the last four are dropped, with 18 bits left the
    last two. *)
Fixpoint decode_sextets (vs : list N) : list N :=
  match vs with
  | s1 :: s2 :: s3 :: s4 :: rest =>
      let n := ((s1 * 64 + s2) * 64 + s3) * 64 + s4 in
      n / 65536 :: (n / 256) mod 256 :: n mod 256 :: decode_sextets rest
  | [s1; s2; s3] =>
      let n := ((s1 * 64 + s2) * 64 + s3) / 4 in
      [n / 256; n mod 256]
  | [s1; s2] => [(s1 * 64 + s2) / 16]
  | _ => []
  end%N.

(** [atob]: [None] is the InvalidCharacterError it throws. *)
Definition atob (data : string) : option string :=
  let d := List.filter (fun c => negb (is_ascii_whitespace c))
                       (list_ascii_of_string data) in
  let d := if (N.of_nat (List.length d) mod 4 =? 0)%N then strip_padding d else d in
  if (N.of_nat (List.length d) mod 4 =? 1)%N then None
  else match values_of d with
       | None => None
       | Some vs =>
           Some (string_of_list_ascii (map ascii_of_N (decode_sextets vs)))
       end.

(** [encodeBase64]: [binary += String.fromCharCode(bytes[i])], then [btoa]. *)
Definition encodeBase64 (bytes : list byte) : string :=
  btoa (string_of_list_ascii (map ascii_of_byte bytes)).

(** [decodeBase64]: [atob], then [bytes[i] = binaryString.charCodeAt(i)]. *)
Definition decodeBase64 (base64 : string) : option (list byte) :=
  match atob base64 with
  | None => None
  | Some binaryString =>
      Some (map byte_of_ascii (list_ascii_of_string binaryString))
  end.

End Base64.

(** ** JavaScript numbers

    A number is an IEEE 754 binary64 value ([prec = 53], [emax = 1024]);
    the operations are those of [SpecFloat], which round to nearest even
    as JavaScript does. *)

Module Num.

Definition prec : Z := 53.
Definition emax : Z := 1024.

Definition number : Type := spec_float.

Definition zero : number := S754_zero false.
Definition nan : number := S754_nan.

Definition add (x y : number) : number := SFadd prec emax x y.
Definition mul (x y : number) : number := SFmul prec emax x y.
Definition div (x y : number) : number := SFdiv prec emax x y.
Definition ltb (x y : number) : bool := SFltb x y.
Definition leb (x y : number) : bool := SFleb x y.

(** The number of an integer (exact below 2^53). *)
Definition of_Z (z : Z) : number := binary_normalize prec emax z 0 false.

Definition is_nan (x : number) : bool :=
  match x with
  | S754_nan => true
  | _ => false
  end.

(** [Math.max(x, y)]: NaN if either is NaN, and [+0] is larger than [-0]. *)
Definition Math_max (x y : number) : number :=
  if is_nan x || is_nan y then nan
  else if ltb x y then y
  else if ltb y x then x
  else match x with
       | S754_zero true => y
       | _ => x
       end.

(** A number that is not NaN and not below zero: what a clock reads and
    what a duration is. *)
Definition is_nonneg (x : number) : bool :=
  match x with
  | S754_zero _ => true
  | S754_infinity s | S754_finite s _ _ => negb s
  | S754_nan => false
  end.

(** The integer part of a number, towards zero; 0 for NaN and infinities
    (the first steps of ToInt16). *)
Definition truncate (x : number) : Z :=
  match x with
  | S754_finite s m e =>
      let magnitude :=
        match e with
        | Z0 => Zpos m
        | Zpos _ => Z.shiftl (Zpos m) e
        | Zneg _ => Z.shiftr (Zpos m) (- e)
        end in
      if s then (- magnitude)%Z else magnitude
  | _ => 0%Z
  end.

(** ToInt16: the integer part modulo 2^16, read as a signed 16-bit value. *)
Definition ToInt16 (x : number) : Z :=
  let u := (truncate x mod 65536)%Z in
  if (u <? 32768)%Z then u else (u - 65536)%Z.

End Num.

(** ** The voice session of [LiveView]

    The browser's resources are kept in a [World]: microphone tracks,
    audio contexts, live sessions (sockets) and buffer source nodes, each
    named by the index at which it was created.  The component keeps its
    React state and its refs in a [View].  A call of [startSession] or
    of [stopSession] that has reached an [await] is a [Task]. *)

Module Live.
Import Num.

Inductive TrackState : Type := TrackLive | TrackEnded.
Inductive ContextState : Type := Suspended | Running | Closed.

(** A live session: [Closing] once [close()] was called on it or the
    connection failed, [SocketClosed] once its close event has been
    delivered (the [onclose] callback has run). *)
Inductive SocketState : Type := Connecting | Open | Closing | SocketClosed.

(** An [AudioBuffer] with one channel. *)
Record AudioBuffer : Type := {
  ab_sampleRate : Z;
  ab_channel : list number
}.

Definition ab_length (b : AudioBuffer) : Z := Z.of_nat (List.length (ab_channel b)).

(** [buffer.duration]: the length divided by the sample rate. *)
Definition ab_duration (b : AudioBuffer) : number :=
  div (of_Z (ab_length b)) (of_Z (ab_sampleRate b)).

(** An [AudioBufferSourceNode]: its buffer, the time given to [start]
    ([None] before [start] is called) and whether [stop] was called. *)
Record SourceNode : Type := {
  node_buffer : AudioBuffer;
  node_when : option number;
  node_stopped : bool
}.

(** [mics !! i] is the audio track of the [i]-th stream of [getUserMedia]. *)
Record World : Type := {
  mics : list TrackState;
  contexts : list ContextState;
  sockets : list SocketState;
  nodes : list SourceNode
}.

(** What the component hands to [session.sendRealtimeInput] and
    [session.sendToolResponse]. *)
Inductive Outbound : Type :=
  | RealtimeInput (data mimeType : string)
  | ToolResponse (id name result : string).

(** The states of React ([useState]) and the refs ([useRef]). *)
Record View : Type := {
  isActive : bool;
  isMuted : bool;
  authError : option string;
  isValidating : bool;
  userInput : string;
  aiOutput : string;
  audioContextRef : option nat;
  outputAudioContextRef : option nat;
  sessionRef : option nat;
  nextStartTimeRef : number;
  sourcesRef : list nat;
  micStreamRef : option nat
}.

(** A call of [startSession] in flight, with the locals it has bound so
    far: [muted] is the [isMuted] of the render whose [startSession] was
    called (the closure keeps that binding), then [stream], [inputCtx],
    [outputCtx] and the session of [ai.live.connect].  A call of
    [stopSession] in flight awaits the [close()] of the context [ctx]:
    that of line 56 or that of line 59. *)
Inductive Task : Type :=
  | AwaitMic (muted : bool)
  | AwaitResumeIn (muted : bool) (stream inputCtx outputCtx : nat)
  | AwaitResumeOut (muted : bool) (stream inputCtx outputCtx : nat)
  | AwaitHandshake (muted : bool) (stream inputCtx outputCtx session : nat)
  | Connected (muted : bool) (stream inputCtx outputCtx session : nat)
  | AwaitCloseIn (ctx : nat)
  | AwaitCloseOut (ctx : nat)
  | Finished.

(** [sent] lists the calls of [session.send...] with the session they
    were made on, [saved] the arguments of the calls of [onSaveMemory]
    ([None] is [undefined]); both in the order of the calls. *)
Record System : Type := {
  view : View;
  world : World;
  tasks : list Task;
  sent : list (nat * Outbound);
  saved : list (option string)
}.

Definition set_mics (x : list TrackState) (w : World) : World :=
  {| mics := x;
     contexts := contexts w;
     sockets := sockets w;
     nodes := nodes w |}.

Definition set_contexts (x : list ContextState) (w : World) : World :=
  {| mics := mics w;
     contexts := x;
     sockets := sockets w;
     nodes := nodes w |}.

Definition set_sockets (x : list SocketState) (w : World) : World :=
  {| mics := mics w;
     contexts := contexts w;
     sockets := x;
     nodes := nodes w |}.

Definition set_nodes (x : list SourceNode) (w : World) : World :=
  {| mics := mics w;
     contexts := contexts w;
     sockets := sockets w;
     nodes := x |}.

Definition set_isActive (x : bool) (v : View) : View :=
  {| isActive := x;
     isMuted := isMuted v;
     authError := authError v;
     isValidating := isValidating v;
     userInput := userInput v;
     aiOutput := aiOutput v;
     audioContextRef := audioContextRef v;
     outputAudioContextRef := outputAudioContextRef v;
     sessionRef := sessionRef v;
     nextStartTimeRef := nextStartTimeRef v;
     sourcesRef := sourcesRef v;
     micStreamRef := micStreamRef v |}.

Definition set_isMuted (x : bool) (v : View) : View :=
  {| isActive := isActive v;
     isMuted := x;
     authError := authError v;
     isValidating := isValidating v;
     userInput := userInput v;
     aiOutput := aiOutput v;
     audioContextRef := audioContextRef v;
     outputAudioContextRef := outputAudioContextRef v;
     sessionRef := sessionRef v;
     nextStartTimeRef := nextStartTimeRef v;
     sourcesRef := sourcesRef v;
     micStreamRef := micStreamRef v |}.

Definition set_authError (x : option string) (v : View) : View :=
  {| isActive := isActive v;
     isMuted := isMuted v;
     authError := x;
     isValidating := isValidating v;
     userInput := userInput v;
     aiOutput := aiOutput v;
     audioContextRef := audioContextRef v;
     outputAudioContextRef := outputAudioContextRef v;
     sessionRef := sessionRef v;
     nextStartTimeRef := nextStartTimeRef v;
     sourcesRef := sourcesRef v;
     micStreamRef := micStreamRef v |}.

Definition set_isValidating (x : bool) (v : View) : View :=
  {| isActive := isActive v;
     isMuted := isMuted v;
     authError := authError v;
     isValidating := x;
     userInput := userInput v;
     aiOutput := aiOutput v;
     audioContextRef := audioContextRef v;
     outputAudioContextRef := outputAudioContextRef v;
     sessionRef := sessionRef v;
     nextStartTimeRef := nextStartTimeRef v;
     sourcesRef := sourcesRef v;
     micStreamRef := micStreamRef v |}.

Definition set_userInput (x : string) (v : View) : View :=
  {| isActive := isActive v;
     isMuted := isMuted v;
     authError := authError v;
     isValidating := isValidating v;
     userInput := x;
     aiOutput := aiOutput v;
     audioContextRef := audioContextRef v;
     outputAudioContextRef := outputAudioContextRef v;
     sessionRef := sessionRef v;
     nextStartTimeRef := nextStartTimeRef v;
     sourcesRef := sourcesRef v;
     micStreamRef := micStreamRef v |}.

Definition set_aiOutput (x : string) (v : View) : View :=
  {| isActive := isActive v;
     isMuted := isMuted v;
     authError := authError v;
     isValidating := isValidating v;
     userInput := userInput v;
     aiOutput := x;
     audioContextRef := audioContextRef v;
     outputAudioContextRef := outputAudioContextRef v;
     sessionRef := sessionRef v;
     nextStartTimeRef := nextStartTimeRef v;
     sourcesRef := sourcesRef v;
     micStreamRef := micStreamRef v |}.

Definition set_audioContextRef (x : option nat) (v : View) : View :=
  {| isActive := isActive v;
     isMuted := isMuted v;
     authError := authError v;
     isValidating := isValidating v;
     userInput := userInput v;
     aiOutput := aiOutput v;
     audioContextRef := x;
     outputAudioContextRef := outputAudioContextRef v;
     sessionRef := sessionRef v;
     nextStartTimeRef := nextStartTimeRef v;
     sourcesRef := sourcesRef v;
     micStreamRef := micStreamRef v |}.

Definition set_outputAudioContextRef (x : option nat) (v : View) : View :=
  {| isActive := isActive v;
     isMuted := isMuted v;
     authError := authError v;
     isValidating := isValidating v;
     userInput := userInput v;
     aiOutput := aiOutput v;
     audioContextRef := audioContextRef v;
     outputAudioContextRef := x;
     sessionRef := sessionRef v;
     nextStartTimeRef := nextStartTimeRef v;
     sourcesRef := sourcesRef v;
     micStreamRef := micStreamRef v |}.

Definition set_sessionRef (x : option nat) (v : View) : View :=
  {| isActive := isActive v;
     isMuted := isMuted v;
     authError := authError v;
     isValidating := isValidating v;
     userInput := userInput v;
     aiOutput := aiOutput v;
     audioContextRef := audioContextRef v;
     outputAudioContextRef := outputAudioContextRef v;
     sessionRef := x;
     nextStartTimeRef := nextStartTimeRef v;
     sourcesRef := sourcesRef v;
     micStreamRef := micStreamRef v |}.

Definition set_nextStartTimeRef (x : number) (v : View) : View :=
  {| isActive := isActive v;
     isMuted := isMuted v;
     authError := authError v;
     isValidating := isValidating v;
     userInput := userInput v;
     aiOutput := aiOutput v;
     audioContextRef := audioContextRef v;
     outputAudioContextRef := outputAudioContextRef v;
     sessionRef := sessionRef v;
     nextStartTimeRef := x;
     sourcesRef := sourcesRef v;
     micStreamRef := micStreamRef v |}.

Definition set_sourcesRef (x : list nat) (v : View) : View :=
  {| isActive := isActive v;
     isMuted := isMuted v;
     authError := authError v;
     isValidating := isValidating v;
     userInput := userInput v;
     aiOutput := aiOutput v;
     audioContextRef := audioContextRef v;
     outputAudioContextRef := outputAudioContextRef v;
     sessionRef := sessionRef v;
     nextStartTimeRef := nextStartTimeRef v;
     sourcesRef := x;
     micStreamRef := micStreamRef v |}.

Definition set_micStreamRef (x : option nat) (v : View) : View :=
  {| isActive := isActive v;
     isMuted := isMuted v;
     authError := authError v;
     isValidating := isValidating v;
     userInput := userInput v;
     aiOutput := aiOutput v;
     audioContextRef := audioContextRef v;
     outputAudioContextRef := outputAudioContextRef v;
     sessionRef := sessionRef v;
     nextStartTimeRef := nextStartTimeRef v;
     sourcesRef := sourcesRef v;
     micStreamRef := x |}.

Definition set_view (x : View) (s : System) : System :=
  {| view := x;
     world := world s;
     tasks := tasks s;
     sent := sent s;
     saved := saved s |}.

Definition set_world (x : World) (s : System) : System :=
  {| view := view s;
     world := x;
     tasks := tasks s;
     sent := sent s;
     saved := saved s |}.

Definition set_tasks (x : list Task) (s : System) : System :=
  {| view := view s;
     world := world s;
     tasks := x;
     sent := sent s;
     saved := saved s |}.

Definition set_sent (x : list (nat * Outbound)) (s : System) : System :=
  {| view := view s;
     world := world s;
     tasks := tasks s;
     sent := x;
     saved := saved s |}.

Definition set_saved (x : list (option string)) (s : System) : System :=
  {| view := view s;
     world := world s;
     tasks := tasks s;
     sent := sent s;
     saved := x |}.

Definition upd_view (f : View -> View) (s : System) : System :=
  set_view (f (view s)) s.

Definition upd_world (f : World -> World) (s : System) : System :=
  set_world (f (world s)) s.

Definition init_view : View :=
  {| isActive := false; isMuted := false; authError := None;
     isValidating := false; userInput := ""; aiOutput := "";
     audioContextRef := None; outputAudioContextRef := None;
     sessionRef := None; nextStartTimeRef := zero; sourcesRef := [];
     micStreamRef := None |}.

Definition init_world : World :=
  {| mics := []; contexts := []; sockets := []; nodes := [] |}.

(** The component as mounted. *)
Definition init : System :=
  {| view := init_view; world := init_world; tasks := []; sent := [];
     saved := [] |}.

(** *** Handlers that may throw

    A handler takes the system to an [Outcome]: it returns, or it throws
    and leaves the system as it was at the throw. *)

Inductive Outcome : Type :=
  | Returned (s : System)
  | Threw (s : System).

Definition Proc : Type := System -> Outcome.

Definition ret : Proc := Returned.
Definition throw : Proc := Threw.

Definition lift (f : System -> System) : Proc := fun s => Returned (f s).

Definition seq (p q : Proc) : Proc :=
  fun s => match p s with
           | Returned s' => q s'
           | Threw s' => Threw s'
           end.

Notation "p >> q" := (seq p q) (at level 61, left associativity).

(** [try { p } catch (e) {}] *)
Definition try_ (p : Proc) : Proc :=
  fun s => match p s with
           | Returned s' => Returned s'
           | Threw s' => Returned s'
           end.

(** [for (const x of l) { body }] *)
Fixpoint for_each {A : Type} (l : list A) (body : A -> Proc) : Proc :=
  match l with
  | [] => ret
  | x :: l' => body x >> for_each l' body
  end.

(** [if (ref.current) { body(ref.current) }] *)
Definition when_ref (ref : View -> option nat) (body : nat -> Proc) : Proc :=
  fun s => match ref (view s) with
           | Some r => body r s
           | None => Returned s
           end.

(** The system an event handler leaves behind: an exception that
    escapes it is reported by the runtime and changes nothing more. *)
Definition settle (o : Outcome) : System :=
  match o with
  | Returned s => s
  | Threw s => s
  end.

(** *** The browser's operations *)

(** [track.stop()]: ends the track; never throws. *)
Definition track_stop (i : nat) : Proc :=
  lift (upd_world (fun w => set_mics (<[i := TrackEnded]> (mics w)) w)).

(** [session.close()]: the session is closing and its close event comes
    later; throws on a session that is closing or closed already. *)
Definition session_close (i : nat) : Proc :=
  fun s => match sockets (world s) !! i with
           | Some Connecting | Some Open =>
               Returned (upd_world (fun w => set_sockets (<[i := Closing]> (sockets w)) w) s)
           | Some Closing | Some SocketClosed | None => Threw s
           end.

(** [source.stop()]: throws InvalidStateError on a node that was never
    started. *)
Definition source_stop (i : nat) : Proc :=
  fun s => match nodes (world s) !! i with
           | Some n =>
               match node_when n with
               | Some _ =>
                   let n' := {| node_buffer := node_buffer n;
                                node_when := node_when n;
                                node_stopped := true |} in
                   Returned (upd_world (fun w => set_nodes (<[i := n']> (nodes w)) w) s)
               | None => Threw s
               end
           | None => Threw s
           end.

(** [ctx.state] *)
Definition context_state (s : System) (i : nat) : ContextState :=
  default Closed (contexts (world s) !! i).

Definition is_closed (c : ContextState) : bool :=
  match c with
  | Closed => true
  | _ => false
  end.

(** [ctx.close()]: rejects on a closed context; [ctx.state] reads
    closed from the call on, the promise settles in a later turn. *)
Definition context_close (i : nat) : Proc :=
  fun s => if is_closed (context_state s i) then Threw s
           else Returned (upd_world (fun w => set_contexts (<[i := Closed]> (contexts w)) w) s).

(** [await ctx.resume()]: rejects on a closed context. *)
Definition context_resume (i : nat) : Proc :=
  fun s => if is_closed (context_state s i) then Threw s
           else Returned (upd_world (fun w => set_contexts (<[i := Running]> (contexts w)) w) s).

(** [session.sendRealtimeInput] and [session.sendToolResponse] on the
    session of [sessionPromise]. *)
Definition send (session : nat) (m : Outbound) (s : System) : System :=
  set_sent (sent s ++ [(session, m)]) s.

(** [onSaveMemory(info)] *)
Definition onSaveMemory (info : option string) (s : System) : System :=
  set_saved (saved s ++ [info]) s.

Definition set_task (k : nat) (t : Task) (s : System) : System :=
  set_tasks (<[k := t]> (tasks s)) s.

(** *** [stopSession] (lines 29-64)

    A call runs to its first [await]; there it is kept as a task, and
    it goes on when the [close()] it awaits has settled.  Other
    handlers may run in between. *)

Definition stop_sources : Proc :=
  fun s => for_each (sourcesRef (view s)) (fun source => try_ (source_stop source)) s.

(** Lines 30-53: the part before the first [await]. *)
Definition stop_sync : Proc :=
  lift (upd_view (set_isActive false)) >>
  lift (upd_view (set_isValidating false)) >>
  when_ref sessionRef (fun h =>
    try_ (session_close h) >> lift (upd_view (set_sessionRef None))) >>
  stop_sources >>
  lift (upd_view (set_sourcesRef [])) >>
  lift (upd_view (set_nextStartTimeRef zero)) >>
  when_ref micStreamRef (fun m =>
    track_stop m >> lift (upd_view (set_micStreamRef None))).

(** Where a call that reaches an [await] is kept: a call made now
    becomes a new task, a call that an event resumes is the task [k]. *)
Inductive Slot : Type :=
  | Fresh
  | Resumed (k : nat).

Definition park (slot : Slot) (t : Task) (s : System) : System :=
  match slot with
  | Fresh => set_tasks (tasks s ++ [t]) s
  | Resumed k => set_task k t s
  end.

(** The call returns. *)
Definition leave (slot : Slot) (s : System) : System :=
  match slot with
  | Fresh => s
  | Resumed k => set_task k Finished s
  end.

(** [if (ref.current && ref.current.state !== 'closed')
      { try { await ref.current.close(); } catch (e) {} }]:
    [Some c] with the context whose [close()] the call now awaits,
    [None] when it goes on at once. *)
Definition close_context_ref (ref : View -> option nat) (s : System)
    : System * option nat :=
  match ref (view s) with
  | Some c =>
      if is_closed (context_state s c) then (s, None)
      else match context_close c s with
           | Returned s' => (s', Some c)
           | Threw s' => (s', None)   (* a rejected promise: the [catch] *)
           end
  | None => (s, None)
  end.

(** Lines 62-63. *)
Definition stop_refs (slot : Slot) (s : System) : System :=
  leave slot
    (upd_view (set_outputAudioContextRef None)
       (upd_view (set_audioContextRef None) s)).

(** Lines 58-63. *)
Definition stop_output (slot : Slot) (s : System) : System :=
  match close_context_ref outputAudioContextRef s with
  | (s', Some c) => park slot (AwaitCloseOut c) s'
  | (s', None) => stop_refs slot s'
  end.

(** Lines 55-63. *)
Definition stop_input (slot : Slot) (s : System) : System :=
  match close_context_ref audioContextRef s with
  | (s', Some c) => park slot (AwaitCloseIn c) s'
  | (s', None) => stop_output slot s'
  end.

(** The call of [stopSession], up to its first [await] or, when it
    awaits nothing, to its end. *)
Definition stopSession : Proc := stop_sync >> lift (stop_input Fresh).

(** The [close()] that the task [k] awaits has settled: the call goes
    on after line 56 or after line 59. *)
Definition context_closed (k : nat) (s : System) : System :=
  match tasks s !! k with
  | Some (AwaitCloseIn _) => stop_output (Resumed k) s
  | Some (AwaitCloseOut _) => stop_refs (Resumed k) s
  | _ => s
  end.

(** *** [startSession] (lines 82-233), one function per stretch between
    two awaits *)

(** A JavaScript string in a condition: [undefined] and the empty string
    are false. *)
Definition truthy (x : option string) : bool :=
  match x with
  | Some EmptyString | None => false
  | Some _ => true
  end.

(** The [catch] of [startSession] (lines 228-232). *)
Definition catch_start (k : nat) (s : System) : System :=
  set_task k Finished
    (upd_view (fun v => set_authError (Some "Neural sync failed.")
                          (set_isValidating false v)) s).

Section Session.

(** [process.env.API_KEY] *)
Variable API_KEY : option string.

(** Lines 83-95: up to the call of [getUserMedia]. *)
Definition startSession (s : System) : System :=
  let s := upd_view (fun v => set_aiOutput "" (set_userInput ""
                     (set_isValidating true (set_authError None v)))) s in
  if truthy API_KEY
  then set_tasks (tasks s ++ [AwaitMic (isMuted (view s))]) s
  else upd_view (fun v => set_isValidating false
                   (set_authError (Some "No API key detected.") v)) s.

(** Lines 95-109: [getUserMedia] resolved with a new stream; both
    contexts are created (the constructors are taken to return) and
    [inputCtx.resume()] is awaited. *)
Definition mic_granted (k : nat) (s : System) : System :=
  match tasks s !! k with
  | Some (AwaitMic muted) =>
      let stream := List.length (mics (world s)) in
      let inputCtx := List.length (contexts (world s)) in
      let outputCtx := S inputCtx in
      let s := upd_world (fun w => set_mics (mics w ++ [TrackLive]) w) s in
      let s := upd_view (set_micStreamRef (Some stream)) s in
      let s := upd_world (fun w => set_contexts (contexts w ++ [Suspended; Suspended]) w) s in
      set_task k (AwaitResumeIn muted stream inputCtx outputCtx) s
  | _ => s
  end.

(** [getUserMedia] rejected: the [catch]. *)
Definition mic_denied (k : nat) (s : System) : System :=
  match tasks s !! k with
  | Some (AwaitMic _) => catch_start k s
  | _ => s
  end.

(** Lines 109-110: [inputCtx.resume()] settled. *)
Definition resumed_in (k : nat) (s : System) : System :=
  match tasks s !! k with
  | Some (AwaitResumeIn muted stream inputCtx outputCtx) =>
      match context_resume inputCtx s with
      | Returned s' => set_task k (AwaitResumeOut muted stream inputCtx outputCtx) s'
      | Threw s' => catch_start k s'
      end
  | _ => s
  end.

(** Lines 110-227: [outputCtx.resume()] settled; the contexts are stored
    in the refs and [ai.live.connect] opens a session. *)
Definition resumed_out (k : nat) (s : System) : System :=
  match tasks s !! k with
  | Some (AwaitResumeOut muted stream inputCtx outputCtx) =>
      match context_resume outputCtx s with
      | Returned s' =>
          let session := List.length (sockets (world s')) in
          let s' := upd_view (fun v => set_outputAudioContextRef (Some outputCtx)
                                (set_audioContextRef (Some inputCtx) v)) s' in
          let s' := upd_world (fun w => set_sockets (sockets w ++ [Connecting]) w) s' in
          set_task k (AwaitHandshake muted stream inputCtx outputCtx session) s'
      | Threw s' => catch_start k s'
      end
  | _ => s
  end.

(** The [onopen] callback (lines 122-149): the flags, then the capture
    graph, whose node constructors are taken to return. *)
Definition onopen (k : nat) (muted : bool) (stream inputCtx outputCtx session : nat)
    (s : System) : System :=
  let s := upd_view (fun v => set_isValidating false (set_isActive true v)) s in
  set_task k (Connected muted stream inputCtx outputCtx session) s.

(** The handshake resolves: the session opens, [onopen] runs, and line
    227 stores the session in [sessionRef]; the library calls [onopen]
    and resolves the promise of [connect] in one turn, so this is one
    event. *)
Definition handshake_open (k : nat) (s : System) : System :=
  match tasks s !! k with
  | Some (AwaitHandshake muted stream inputCtx outputCtx session) =>
      let s := upd_world (fun w => set_sockets (<[session := Open]> (sockets w)) w) s in
      let s := onopen k muted stream inputCtx outputCtx session s in
      upd_view (set_sessionRef (Some session)) s
  | _ => s
  end.

(** [ai.live.connect] rejected: the [catch]. *)
Definition handshake_failed (k : nat) (s : System) : System :=
  match tasks s !! k with
  | Some (AwaitHandshake _ _ _ _ session) =>
      catch_start k
        (upd_world (fun w => set_sockets (<[session := SocketClosed]> (sockets w)) w) s)
  | _ => s
  end.

End Session.

(** *** The capture callback [onaudioprocess] (lines 129-145) *)

Definition byte_of_Z (z : Z) : byte :=
  match Byte.of_N (Z.to_N (z mod 256)) with
  | Some b => b
  | None => x00
  end.

(** The two bytes of an [Int16Array] element, low byte first. *)
Definition int16_bytes (v : Z) : list byte :=
  let u := (v mod 65536)%Z in
  [byte_of_Z u; byte_of_Z (u / 256)].

(** [int16[i] = inputData[i] * 32768] *)
Definition to_pcm16 (inputData : list number) : list Z :=
  map (fun x => ToInt16 (mul x (of_Z 32768))) inputData.

(** [muted] is the [isMuted] the closure of [startSession] has bound. *)
Definition onaudioprocess (muted : bool) (session : nat) (inputData : list number)
    (s : System) : System :=
  if muted then s
  else
    let int16 := to_pcm16 inputData in
    let pcmBlob :=
      RealtimeInput (Base64.encodeBase64 (flat_map int16_bytes int16))
                    "audio/pcm;rate=16000" in
    send session pcmBlob s.

(** *** Inbound messages *)

(** [fc.args], of which the handler reads [info] ([None]: no such
    property). *)
Record Args : Type := { info : option string }.

Record FunctionCall : Type := {
  fc_id : string;
  fc_name : string;
  fc_args : option Args
}.

Record Blob : Type := { data : option string; mimeType : option string }.

Record Part : Type := { inlineData : option Blob; text : option string }.

Record Transcription : Type := { tr_text : option string }.

Record ServerContent : Type := {
  inputTranscription : option Transcription;
  outputTranscription : option Transcription;
  modelTurn : option (list Part);   (* [modelTurn?.parts] *)
  interrupted : bool
}.

Record LiveServerMessage : Type := {
  toolCall : option (list FunctionCall);   (* [toolCall.functionCalls] *)
  serverContent : option ServerContent
}.

(** *** [decodeAudioData] (geminiService.ts, lines 162-171), called with
    one channel *)

Definition int16_of_bytes (lo hi : byte) : Z :=
  let u := (Z.of_N (Byte.to_N lo) + 256 * Z.of_N (Byte.to_N hi))%Z in
  if (u <? 32768)%Z then u else (u - 65536)%Z.

(** [new Int16Array(data.buffer)]: a RangeError ([None]) when the byte
    length is odd. *)
Fixpoint Int16Array_of (bytes : list byte) : option (list Z) :=
  match bytes with
  | [] => Some []
  | [_] => None
  | lo :: hi :: rest =>
      match Int16Array_of rest with
      | Some l => Some (int16_of_bytes lo hi :: l)
      | None => None
      end
  end.

(** [ctx.createBuffer] refuses a length of zero ([None]). *)
Definition decodeAudioData (bytes : list byte) (sampleRate : Z) : option AudioBuffer :=
  match Int16Array_of bytes with
  | None => None
  | Some dataInt16 =>
      match dataInt16 with
      | [] => None
      | _ =>
          Some {| ab_sampleRate := sampleRate;
                  ab_channel := map (fun v => div (of_Z v) (of_Z 32768)) dataInt16 |}
      end
  end.

(** *** The [onmessage] callback (lines 150-208)

    [session] is the session of the [sessionPromise] the callback closes
    over, [now] is [ctx.currentTime] as line 191 reads it.  The awaits
    inside the handler are taken to settle before another handler
    runs. *)

Definition acknowledgement : string :=
  "I have saved that in my neural vault. I will remember it.".

(** Lines 152-166. *)
Definition handle_function_call (session : nat) (fc : FunctionCall) : Proc :=
  if String.eqb (fc_name fc) "save_important_info" then
    match fc_args fc with
    | None => throw   (* TypeError: [(fc.args as any).info] *)
    | Some args =>
        lift (onSaveMemory (info args)) >>
        lift (send session (ToolResponse (fc_id fc) (fc_name fc) acknowledgement))
    end
  else ret.

Definition handle_toolCall (session : nat) (message : LiveServerMessage) : Proc :=
  match toolCall message with
  | Some functionCalls => for_each functionCalls (handle_function_call session)
  | None => ret
  end.

(** Lines 168-175. *)
Definition set_caption (setter : string -> View -> View)
    (t : option Transcription) : Proc :=
  match t with
  | Some tr => if truthy (tr_text tr)
               then lift (upd_view (setter (default "" (tr_text tr))))
               else ret
  | None => ret
  end.

Definition handle_transcriptions (message : LiveServerMessage) : Proc :=
  match serverContent message with
  | Some sc =>
      set_caption set_userInput (inputTranscription sc) >>
      set_caption set_aiOutput (outputTranscription sc)
  | None => ret
  end.

(** Line 177: [parts?.find(p => p.inlineData)]. *)
Definition audioPart (message : LiveServerMessage) : option Part :=
  match serverContent message with
  | Some sc =>
      match modelTurn sc with
      | Some parts => List.find (fun p => bool_decide (is_Some (inlineData p))) parts
      | None => None
      end
  | None => None
  end.

(** Line 178: [audioPart?.inlineData?.data]. *)
Definition base64Audio (message : LiveServerMessage) : option string :=
  match audioPart message with
  | Some p => match inlineData p with
              | Some b => data b
              | None => None
              end
  | None => None
  end.

(** JavaScript's [Set.prototype.add] and [delete] on a set kept in
    insertion order. *)
Definition Set_add (x : nat) (l : list nat) : list nat :=
  if bool_decide (x ∈ l) then l else l ++ [x].

Definition Set_delete (x : nat) (l : list nat) : list nat :=
  List.filter (fun y => negb (Nat.eqb x y)) l.

(** Lines 187-198: a source node for [buffer], started at the later of
    [nextStartTimeRef] and [now]. *)
Definition schedule (now : number) (buffer : AudioBuffer) (s : System) : System :=
  let source := List.length (nodes (world s)) in
  let s := upd_view (fun v => set_nextStartTimeRef (Math_max (nextStartTimeRef v) now) v) s in
  let node := {| node_buffer := buffer;
                 node_when := Some (nextStartTimeRef (view s));
                 node_stopped := false |} in
  let s := upd_world (fun w => set_nodes (nodes w ++ [node]) w) s in
  let s := upd_view (fun v => set_nextStartTimeRef
                       (add (nextStartTimeRef v) (ab_duration buffer)) v) s in
  upd_view (fun v => set_sourcesRef (Set_add source (sourcesRef v)) v) s.

(** Lines 180-186. *)
Definition resume_if_suspended (ctx : nat) : Proc :=
  fun s => match context_state s ctx with
           | Suspended => context_resume ctx s
           | _ => Returned s
           end.

Definition decode_chunk (base64 : string) : option AudioBuffer :=
  match Base64.decodeBase64 base64 with
  | Some decoded => decodeAudioData decoded 24000
  | None => None
  end.

(** Lines 177-199. *)
Definition handle_audio (message : LiveServerMessage) (now : number) : Proc :=
  fun s =>
    if truthy (base64Audio message) then
      match outputAudioContextRef (view s) with
      | Some ctx =>
          (resume_if_suspended ctx >>
           match decode_chunk (default "" (base64Audio message)) with
           | Some buffer => lift (schedule now buffer)
           | None => throw   (* [atob], [Int16Array] or [createBuffer] threw *)
           end) s
      | None => Returned s
      end
    else Returned s.

(** Lines 201-207. *)
Definition interruption : Proc :=
  stop_sources >>
  lift (upd_view (set_sourcesRef [])) >>
  lift (upd_view (set_nextStartTimeRef zero)).

Definition handle_interrupted (message : LiveServerMessage) : Proc :=
  match serverContent message with
  | Some sc => if interrupted sc then interruption else ret
  | None => ret
  end.

Definition onmessage (session : nat) (message : LiveServerMessage) (now : number) : Proc :=
  handle_toolCall session message >>
  handle_transcriptions message >>
  handle_audio message now >>
  handle_interrupted message.

(** [source.onended] (line 198). *)
Definition onended (source : nat) (s : System) : System :=
  upd_view (fun v => set_sourcesRef (Set_delete source (sourcesRef v)) v) s.

(** The mute button (line 277). *)
Definition toggleMute (s : System) : System :=
  upd_view (fun v => set_isMuted (negb (isMuted v)) v) s.

(** *** Events

    [Start] and [Stop] are calls of [startSession] and [stopSession] (the
    hang-up button and the unmount call [stopSession] in every state);
    [ClickMain] is the large button (lines 266-274): disabled while
    [isValidating], else [stopSession] when [isActive] and
    [startSession] otherwise.  The others are the settlements the
    browser and the remote endpoint deliver to the task [k]:
    [ContextClosed k] settles the [close()] that the call [k] of
    [stopSession] awaits, [SessionError k] is the error event and
    [SessionClose k] the close event of the session of the call [k] of
    [startSession]. *)
Inductive Event : Type :=
  | Start
  | Stop
  | ClickMain
  | ToggleMute
  | MicGranted (k : nat)
  | MicDenied (k : nat)
  | ResumedIn (k : nat)
  | ResumedOut (k : nat)
  | HandshakeOpen (k : nat)
  | HandshakeFailed (k : nat)
  | AudioProcess (k : nat) (inputData : list number)
  | Message (k : nat) (message : LiveServerMessage) (now : number)
  | SessionClose (k : nat)
  | SessionError (k : nat)
  | SourceEnded (source : nat)
  | ContextClosed (k : nat).

Definition socket_state (s : System) (i : nat) : SocketState :=
  default SocketClosed (sockets (world s) !! i).

Definition is_open (c : SocketState) : bool :=
  match c with
  | Open => true
  | _ => false
  end.

(** The script processor of task [k] calls back while its context runs. *)
Definition deliver_audio (k : nat) (inputData : list number) (s : System) : System :=
  match tasks s !! k with
  | Some (Connected muted _ inputCtx _ session) =>
      if is_closed (context_state s inputCtx) then s
      else onaudioprocess muted session inputData s
  | _ => s
  end.

(** The open session of task [k] delivers a message. *)
Definition deliver_message (k : nat) (message : LiveServerMessage) (now : number)
    (s : System) : System :=
  match tasks s !! k with
  | Some (Connected _ _ _ _ session) =>
      if is_open (socket_state s session)
      then settle (onmessage session message now s)
      else s
  | _ => s
  end.

(** The session whose callbacks the call [k] of [startSession] has
    passed to [ai.live.connect]. *)
Definition session_of (t : Task) : option nat :=
  match t with
  | AwaitHandshake _ _ _ _ session | Connected _ _ _ _ session => Some session
  | _ => None
  end.

Definition task_session (s : System) (k : nat) : option nat :=
  match tasks s !! k with
  | Some t => session_of t
  | None => None
  end.

(** The close event of the session of task [k]: it comes once, when the
    remote endpoint has closed the session, when the connection has
    failed, and also when the component itself has called
    [session.close()]; [onclose] (line 209) calls [stopSession]. *)
Definition deliver_close (k : nat) (s : System) : System :=
  match task_session s k with
  | Some session =>
      match socket_state s session with
      | SocketClosed => s
      | _ =>
          settle (stopSession
            (upd_world (fun w => set_sockets (<[session := SocketClosed]> (sockets w)) w) s))
      end
  | None => s
  end.

(** The error event of the session of task [k], during the handshake or
    later: [onerror] (lines 210-213) calls [stopSession]; the close
    event is still to come. *)
Definition deliver_error (k : nat) (s : System) : System :=
  match task_session s k with
  | Some session =>
      match socket_state s session with
      | SocketClosed => s
      | _ =>
          settle (stopSession
            (upd_world (fun w => set_sockets (<[session := Closing]> (sockets w)) w) s))
      end
  | None => s
  end.

Section Run.

Variable API_KEY : option string.

Definition click_main (s : System) : System :=
  if isValidating (view s) then s
  else if isActive (view s) then settle (stopSession s)
  else startSession API_KEY s.

Definition step (e : Event) (s : System) : System :=
  match e with
  | Start => startSession API_KEY s
  | Stop => settle (stopSession s)
  | ClickMain => click_main s
  | ToggleMute => toggleMute s
  | MicGranted k => mic_granted k s
  | MicDenied k => mic_denied k s
  | ResumedIn k => resumed_in k s
  | ResumedOut k => resumed_out k s
  | HandshakeOpen k => handshake_open k s
  | HandshakeFailed k => handshake_failed k s
  | AudioProcess k inputData => deliver_audio k inputData s
  | Message k message now => deliver_message k message now s
  | SessionClose k => deliver_close k s
  | SessionError k => deliver_error k s
  | SourceEnded source => onended source s
  | ContextClosed k => context_closed k s
  end.

(** The events of a trace, handled one after the other. *)
Fixpoint run (trace : list Event) (s : System) : System :=
  match trace with
  | [] => s
  | e :: trace' => run trace' (step e s)
  end.

End Run.

(** *** What is live *)

Definition live_tracks (w : World) : nat :=
  List.length (List.filter (fun t => match t with TrackLive => true | TrackEnded => false end) (mics w)).

Definition open_contexts (w : World) : nat :=
  List.length (List.filter (fun c => negb (is_closed c)) (contexts w)).

(** The sessions that are connecting or open. *)
Definition open_sessions (w : World) : nat :=
  List.length (List.filter (fun c => match c with Connecting | Open => true | _ => false end) (sockets w)).

(** A source that was started and not stopped plays at its time. *)
Definition plays (n : SourceNode) : bool :=
  match node_when n with
  | Some _ => negb (node_stopped n)
  | None => false
  end.

(** Idle: neither validating nor active. *)
Definition idle (s : System) : bool :=
  negb (isActive (view s)) && negb (isValidating (view s)).

(** *** Closed forms, to state what the handlers do *)

(** What [try { source.stop() } catch (e) {}] leaves of a node. *)
Definition stop_node (n : SourceNode) : SourceNode :=
  match node_when n with
  | Some _ => {| node_buffer := node_buffer n;
                 node_when := node_when n;
                 node_stopped := true |}
  | None => n
  end.

Definition stop_one (i : nat) (ns : list SourceNode) : list SourceNode :=
  match ns !! i with
  | Some n => <[i := stop_node n]> ns
  | None => ns
  end.

Fixpoint stop_all (l : list nat) (ns : list SourceNode) : list SourceNode :=
  match l with
  | [] => ns
  | i :: l' => stop_all l' (stop_one i ns)
  end.

(** [<[i := x]>] at the resource a ref names, if it names one. *)
Definition at_ref {A : Type} (ref : option nat) (x : A) (l : list A) : list A :=
  match ref with
  | Some i => <[i := x]> l
  | None => l
  end.

(** What [try { session.close() } catch (e) {}] leaves of a session. *)
Definition close_socket (c : SocketState) : SocketState :=
  match c with
  | Connecting | Open => Closing
  | _ => c
  end.

Definition close_at (ref : option nat) (l : list SocketState) : list SocketState :=
  match ref with
  | Some h => match l !! h with
              | Some c => <[h := close_socket c]> l
              | None => l
              end
  | None => l
  end.

(** The context whose [close()] a call awaits at
    [if (ref.current && ref.current.state !== 'closed')], if any. *)
Definition awaited (ref : View -> option nat) (s : System) : option nat :=
  match ref (view s) with
  | Some c => if is_closed (context_state s c) then None else Some c
  | None => None
  end.

(** The system lines 30-53 of [stopSession] leave. *)
Definition released (s : System) : System :=
  let v := view s in
  let w := world s in
  {| view :=
       {| isActive := false; isMuted := isMuted v; authError := authError v;
          isValidating := false; userInput := userInput v;
          aiOutput := aiOutput v;
          audioContextRef := audioContextRef v;
          outputAudioContextRef := outputAudioContextRef v;
          sessionRef := None; nextStartTimeRef := zero; sourcesRef := [];
          micStreamRef := None |};
     world :=
       {| mics := at_ref (micStreamRef v) TrackEnded (mics w);
          contexts := contexts w;
          sockets := close_at (sessionRef v) (sockets w);
          nodes := stop_all (sourcesRef v) (nodes w) |};
     tasks := tasks s; sent := sent s; saved := saved s |}.

(** The view and the world [stopSession] leaves when its awaits have
    settled and no other handler has run since the call. *)
Definition stopped_view (s : System) : View :=
  set_outputAudioContextRef None (set_audioContextRef None (view (released s))).

Definition stopped_world (s : System) : World :=
  set_contexts
    (at_ref (outputAudioContextRef (view s)) Closed
       (at_ref (audioContextRef (view s)) Closed (contexts (world s))))
    (world (released s)).

(** The events that settle the awaits of the call of [stopSession] made
    in [s]. *)
Definition settled (s : System) : list Event :=
  [ContextClosed (List.length (tasks s)); ContextClosed (List.length (tasks s))].


(** The inbound event [{ serverContent: { interrupted: true } }], with
    whatever captions it carries. *)
Definition interruption_event (input output : option Transcription) : LiveServerMessage :=
  {| toolCall := None;
     serverContent :=
       Some {| inputTranscription := input; outputTranscription := output;
               modelTurn := None; interrupted := true |} |}.

(** A message whose model turn has the parts [parts]. *)
Definition turn_message (calls : option (list FunctionCall))
    (input output : option Transcription) (parts : list Part) (intr : bool)
    : LiveServerMessage :=
  {| toolCall := calls;
     serverContent :=
       Some {| inputTranscription := input; outputTranscription := output;
               modelTurn := Some parts; interrupted := intr |} |}.

Definition audio_part (base64 : string) : Part :=
  {| inlineData := Some {| data := Some base64; mimeType := Some "audio/pcm;rate=24000" |};
     text := None |}.

(** The inbound event of one audio chunk. *)
Definition chunk_message (base64 : string) : LiveServerMessage :=
  turn_message None None None [audio_part base64] false.

Definition is_save (fc : FunctionCall) : bool :=
  String.eqb (fc_name fc) "save_important_info".

(** [(fc.args as any).info] when [fc.args] is an object. *)
Definition fc_info (fc : FunctionCall) : option string :=
  match fc_args fc with
  | Some args => info args
  | None => None
  end.

Definition response_to (session : nat) (fc : FunctionCall) : nat * Outbound :=
  (session, ToolResponse (fc_id fc) (fc_name fc) acknowledgement).

(** The source node line 194 starts at [t]. *)
Definition started_node (buffer : AudioBuffer) (t : number) : SourceNode :=
  {| node_buffer := buffer; node_when := Some t; node_stopped := false |}.

(** A chunk of [frames] silent frames, as the endpoint sends it. *)
Definition silence (frames : N) : string :=
  Base64.encodeBase64 (List.repeat x00 (N.to_nat (2 * frames))).

Definition silent_buffer (frames : N) : AudioBuffer :=
  {| ab_sampleRate := 24000; ab_channel := List.repeat zero (N.to_nat frames) |}.

(** The session once the handshake of the first [startSession] has
    resolved. *)
Definition connected : System :=
  run (Some "key")
      [Start; MicGranted 0; ResumedIn 0; ResumedOut 0; HandshakeOpen 0] init.

(** The connected session with two chunks pending. *)
Definition two_pending : System :=
  run (Some "key")
      [Message 0 (chunk_message (silence 2)) zero;
       Message 0 (chunk_message (silence 3)) zero] connected.

(** A state in which the session of [sessionRef] is already closed, the
    output context too, and the pending set names a node that does not
    exist. *)
Definition half_closed : System :=
  set_world {| mics := [TrackLive]; contexts := [Running; Closed];
               sockets := [SocketClosed]; nodes := [] |}
    (set_view {| isActive := true; isMuted := false; authError := None;
                 isValidating := false; userInput := ""; aiOutput := "";
                 audioContextRef := Some 0; outputAudioContextRef := Some 1;
                 sessionRef := Some 0; nextStartTimeRef := zero;
                 sourcesRef := [3]; micStreamRef := Some 0 |} init).

End Live.

(** ** [callWithRetry] (geminiService.ts, lines 7-46) *)

Module Retry.

(** [s.includes(sub)] *)
Fixpoint includes (s sub : string) : bool :=
  String.prefix sub s ||
  match s with
  | EmptyString => false
  | String _ s' => includes s' sub
  end.

(** A thrown value, by what [error?.message] reads from it. *)
Record JsError : Type := { message : option string }.

Definition Error (m : string) : JsError := {| message := Some m |}.

(** [validateApiKey] (lines 7-11): the reason when the key is refused. *)
Definition validateApiKey (key : option string) : option string :=
  match key with
  | None | Some EmptyString =>
      Some "No API key found in the system environment."
  | Some k =>
      if String.prefix "sk-" k
      then Some "You are using an OpenAI key. This app requires a Google Gemini key from ai.google.dev."
      else None
  end.

Definition isQuota (msg : string) : bool :=
  includes msg "429" || includes msg "quota" || includes msg "RESOURCE_EXHAUSTED".

Definition isAuth (msg : string) : bool :=
  includes msg "403" || includes msg "API key not valid"
  || includes msg "PERMISSION_DENIED".

Definition isNotFound (msg : string) : bool :=
  includes msg "404" || includes msg "model not found".

Definition API_KEY_ERROR : JsError :=
  Error "API KEY ERROR: Your key is invalid or unauthorized. Use Google AI Studio.".

Definition MODEL_ERROR : JsError :=
  Error "MODEL ERROR: The selected model is not available for your key.".

Definition QUOTA_EXCEEDED : JsError :=
  Error "QUOTA EXCEEDED: You've reached the limit for this model. Try 'Flash' mode.".

(** How a call ends: with the value of [fn], or with a thrown value
    ([None]: [undefined]). *)
Inductive Result (A : Type) : Type :=
  | Resolved (a : A)
  | Rejected (e : option JsError).

Arguments Resolved {A} a.
Arguments Rejected {A} e.

(** A call of [callWithRetry] as seen from outside: its result, the
    timeouts it waited for (milliseconds, in order) and the number of
    calls of [fn] it made. *)
Record Run (A : Type) : Type := {
  result : Result A;
  delays : list Z;
  attempts : nat
}.

Arguments result {A} r.
Arguments delays {A} r.
Arguments attempts {A} r.

Definition finish {A : Type} (r : Result A) : Run A :=
  {| result := r; delays := []; attempts := 1 |}.

Section CallWithRetry.

Context {A : Type}.

(** [fn i] is how the call of [fn] in iteration [i] ends. *)
Variable fn : Z -> A + JsError.
Variables maxRetries initialDelay : Z.

(** The [for] loop of lines 21-44 from iteration [i] on; [fuel] bounds
    the iterations left. *)
Fixpoint loop (fuel : nat) (i : Z) (lastError : option JsError) : Run A :=
  match fuel with
  | O => {| result := Rejected lastError; delays := []; attempts := 0 |}
  | S fuel' =>
      if (i <=? maxRetries)%Z then
        match fn i with
        | inl v => finish (Resolved v)
        | inr error =>
            let msg := default "" (message error) in
            if isAuth msg then finish (Rejected (Some API_KEY_ERROR))
            else if isNotFound msg then finish (Rejected (Some MODEL_ERROR))
            else if isQuota msg && (i <? maxRetries)%Z then
              let delay := (initialDelay * 2 ^ i)%Z in
              let r := loop fuel' (i + 1)%Z (Some error) in
              {| result := result r;
                 delays := delay :: delays r;
                 attempts := S (attempts r) |}
            else if isQuota msg then finish (Rejected (Some QUOTA_EXCEEDED))
            else finish (Rejected (Some error))
        end
      else {| result := Rejected lastError; delays := []; attempts := 0 |}
  end.

Definition callWithRetry (API_KEY : option string) : Run A :=
  match validateApiKey API_KEY with
  | Some reason =>
      {| result := Rejected (Some (Error reason)); delays := []; attempts := 0 |}
  | None => loop (Z.to_nat (maxRetries + 1)) 0%Z None
  end.

End CallWithRetry.

(** The policy of the loop in closed form, to state what it does: an
    attempt is retried when it fails with a quota message that is neither
    an auth nor a not-found message; any other attempt ends the call with
    its [verdict]. *)
Definition msg_of (error : JsError) : string := default "" (message error).

Definition retryable {A : Type} (o : A + JsError) : bool :=
  match o with
  | inl _ => false
  | inr error =>
      negb (isAuth (msg_of error)) && negb (isNotFound (msg_of error))
      && isQuota (msg_of error)
  end.

Definition verdict {A : Type} (o : A + JsError) : Result A :=
  match o with
  | inl v => Resolved v
  | inr error =>
      if isAuth (msg_of error) then Rejected (Some API_KEY_ERROR)
      else if isNotFound (msg_of error) then Rejected (Some MODEL_ERROR)
      else if isQuota (msg_of error) then Rejected (Some QUOTA_EXCEEDED)
      else Rejected (Some error)
  end.

(** The waits before the attempts [i+1], ..., [i+n]. *)
Fixpoint backoff (initialDelay : Z) (i : Z) (n : nat) : list Z :=
  match n with
  | O => []
  | S n' => (initialDelay * 2 ^ i)%Z :: backoff initialDelay (i + 1) n'
  end.

End Retry.

(** ** Predicates of the statements *)

(** All elements of [l] are below [k]. *)
Definition small (k : N) (l : list N) : Prop := List.Forall (fun x => (x < k)%N) l.

(** A handler that makes no call of [session.send...] or [onSaveMemory]. *)
Definition keeps_logs (p : Live.Proc) : Prop :=
  forall s, Live.sent (Live.settle (p s)) = Live.sent s
            /\ Live.saved (Live.settle (p s)) = Live.saved s.

(** A handler that creates at most [k] source nodes. *)
Definition creates_at_most (k : nat) (p : Live.Proc) : Prop :=
  forall s, List.length (Live.nodes (Live.world (Live.settle (p s))))
            <= k + List.length (Live.nodes (Live.world s)).

(** The events that reach [startSession] and [stopSession] through the
    large button only, with a handshake that does not fail. *)
Definition through_main_button (e : Live.Event) : bool :=
  match e with
  | Live.Start | Live.Stop | Live.HandshakeFailed _ => false
  | _ => true
  end.

(** ** Measures of the further statements *)

(** The time a call has waited in all. *)
Definition total_wait (delays : list Z) : Z := fold_right Z.add 0%Z delays.


(** The component that has not started anything: what it is when it has
    no API key. *)
Definition keyless (s : Live.System) : Prop :=
  Live.tasks s = [] /\ Live.world s = Live.init_world
  /\ Live.sent s = [] /\ Live.saved s = []
  /\ Live.isActive (Live.view s) = false /\ Live.isValidating (Live.view s) = false
  /\ Live.sessionRef (Live.view s) = None /\ Live.micStreamRef (Live.view s) = None
  /\ Live.audioContextRef (Live.view s) = None
  /\ Live.outputAudioContextRef (Live.view s) = None
  /\ Live.sourcesRef (Live.view s) = [].

(** The component at rest: idle, with nothing in its refs. *)
Definition quiet (s : Live.System) : Prop :=
  Live.isActive (Live.view s) = false /\ Live.isValidating (Live.view s) = false
  /\ Live.sessionRef (Live.view s) = None /\ Live.micStreamRef (Live.view s) = None
  /\ Live.audioContextRef (Live.view s) = None
  /\ Live.outputAudioContextRef (Live.view s) = None
  /\ Live.sourcesRef (Live.view s) = [].

(** A session brought up by a click on the large button, [k] being the
    call of [startSession]. *)
Definition bring_up (k : nat) : list Live.Event :=
  [Live.ClickMain; Live.MicGranted k; Live.ResumedIn k; Live.ResumedOut k;
   Live.HandshakeOpen k].

(** The session of the call [k] taken down by a click on the large
    button: the call of [stopSession] is the call [j]; its two awaits
    settle, then the close event of the session arrives. *)
Definition take_down (k j : nat) : list Live.Event :=
  [Live.ClickMain; Live.ContextClosed j; Live.ContextClosed j; Live.SessionClose k].
(** ** Facts about the base64 helpers *)

Section Base64Facts.
Import Base64.

Example encodeBase64_Man : encodeBase64 [x4d; x61; x6e]%byte = "TWFu".
Proof. reflexivity. Qed.

Example encodeBase64_Ma : encodeBase64 [x4d; x61]%byte = "TWE=".
Proof. reflexivity. Qed.

Example decodeBase64_M : decodeBase64 "TQ==" = Some [x4d]%byte.
Proof. reflexivity. Qed.

Example decodeBase64_ws :
  decodeBase64 " T W F u " = Some [x4d; x61; x6e]%byte.
Proof. reflexivity. Qed.

Example decodeBase64_bad :
  decodeBase64 "T" = None /\ decodeBase64 "T=Fu" = None.
Proof. split; reflexivity. Qed.

(** Induction over a byte sequence three bytes at a time, the way
    [btoa] consumes it. *)
Lemma triples_ind (A : Type) (P : list A -> Prop) :
  P [] -> (forall a, P [a]) -> (forall a b, P [a; b]) ->
  (forall a b c rest, P rest -> P (a :: b :: c :: rest)) ->
  forall l, P l.
Proof.
  intros H0 H1 H2 H3.
  fix IH 1. intros [|a [|b [|c rest]]].
  - exact H0.
  - apply H1.
  - apply H2.
  - apply H3, IH.
Qed.

Lemma split_at (k a : N) :
  (k <> 0 -> a = k * (a / k) + a mod k /\ a mod k < k)%N.
Proof.
  intros Hk. split; [apply N.div_mod | apply N.mod_lt]; assumption.
Qed.

(** Names the quotient and the remainder of every division of a variable
    by a constant, so that the goal becomes linear. *)
Ltac divmod_vars :=
  repeat match goal with
         | |- context [N.div ?a ?k] =>
             is_var a;
             let q := fresh "q" in
             let r := fresh "r" in
             destruct (split_at k a) as [? ?]; [lia|];
             set (q := N.div a k) in *; set (r := N.modulo a k) in *;
             clearbody q r
         | |- context [N.modulo ?a ?k] =>
             is_var a;
             let q := fresh "q" in
             let r := fresh "r" in
             destruct (split_at k a) as [? ?]; [lia|];
             set (q := N.div a k) in *; set (r := N.modulo a k) in *;
             clearbody q r
         end.

Lemma pack3 (a b c : N) :
  (((a / 4 * 64 + (a mod 4 * 16 + b / 16)) * 64 + (b mod 16 * 4 + c / 64)) * 64
   + c mod 64 = a * 65536 + b * 256 + c)%N.
Proof. divmod_vars. lia. Qed.

Lemma pack2 (a b : N) :
  (((a / 4 * 64 + (a mod 4 * 16 + b / 16)) * 64 + b mod 16 * 4) / 4
   = a * 256 + b)%N.
Proof.
  symmetry. apply (N.div_unique _ _ _ 0%N); [lia|]. divmod_vars. lia.
Qed.

Lemma pack1 (a : N) : ((a / 4 * 64 + a mod 4 * 16) / 16 = a)%N.
Proof.
  symmetry. apply (N.div_unique _ _ _ 0%N); [lia|]. divmod_vars. lia.
Qed.

Lemma unpack_hi (a r k : N) : (r < k -> (a * k + r) / k = a)%N.
Proof. intros Hr. symmetry. apply (N.div_unique _ _ _ r); lia. Qed.

Lemma unpack_lo (a r k : N) : (r < k -> (a * k + r) mod k = r)%N.
Proof. intros Hr. symmetry. apply (N.mod_unique _ _ a); lia. Qed.

Lemma of_nat_mod4 (k r : nat) :
  r < 4 -> (N.of_nat (4 * k + r) mod 4 = N.of_nat r)%N.
Proof.
  intros Hr. symmetry. apply (N.mod_unique _ _ (N.of_nat k)); lia.
Qed.

Lemma b64_value_char (n : N) :
  (n < 64)%N -> b64_value (b64_char n) = Some n.
Proof.
  intros Hn.
  assert (Hall : List.forallb
            (fun k => match b64_value (b64_char k) with
                      | Some m => N.eqb m k
                      | None => false
                      end) (map N.of_nat (seq 0 64)) = true)
    by (vm_compute; reflexivity).
  rewrite List.forallb_forall in Hall.
  specialize (Hall n).
  destruct (b64_value (b64_char n)) as [m|].
  - assert (Hm : N.eqb m n = true).
    { apply Hall. apply List.in_map_iff. exists (N.to_nat n). split.
      - apply N2Nat.id.
      - apply List.in_seq. lia. }
    apply N.eqb_eq in Hm. now subst.
  - assert (Hf : false = true); [|discriminate].
    apply Hall. apply List.in_map_iff. exists (N.to_nat n). split.
    + apply N2Nat.id.
    + apply List.in_seq. lia.
Qed.

Lemma b64_char_not_pad (n : N) : (n < 64)%N -> Ascii.eqb (b64_char n) pad = false.
Proof.
  intros Hn. apply Ascii.eqb_neq. intros Heq.
  pose proof (b64_value_char n Hn) as Hv. rewrite Heq in Hv.
  vm_compute in Hv. discriminate.
Qed.

Lemma whitespace_outside_alphabet (c : ascii) :
  is_ascii_whitespace c = true -> b64_value c = None.
Proof.
  destruct c as [[] [] [] [] [] [] [] []]; vm_compute; congruence.
Qed.

Lemma b64_char_not_whitespace (n : N) :
  (n < 64)%N -> is_ascii_whitespace (b64_char n) = false.
Proof.
  intros Hn. destruct (is_ascii_whitespace (b64_char n)) eqn:E; [|reflexivity].
  apply whitespace_outside_alphabet in E.
  rewrite (b64_value_char n Hn) in E. discriminate.
Qed.

Lemma sextets_small (bs : list N) : small 256 bs -> small 64 (sextets_of bs).
Proof.
  unfold small. induction bs as [|a|a b|a b c rest IH] using triples_ind;
    intros Hb; cbn [sextets_of];
    repeat match goal with
           | H : List.Forall _ (_ :: _) |- _ => inversion_clear H
           end;
    repeat (apply List.Forall_cons; [divmod_vars; lia|]); auto.
Qed.

Lemma sextets_length (bs : list N) :
  (N.of_nat (List.length (sextets_of bs)) mod 4 =? 1)%N = false.
Proof.
  assert (H : exists k, List.length (sextets_of bs) = 4 * k
                     \/ List.length (sextets_of bs) = 4 * k + 2
                     \/ List.length (sextets_of bs) = 4 * k + 3).
  { induction bs as [|a|a b|a b c rest IH] using triples_ind; cbn [sextets_of List.length].
    - exists 0; lia.
    - exists 0; lia.
    - exists 0; lia.
    - destruct IH as [k Hk]. exists (S k). lia. }
  destruct H as [k [-> | [-> | ->]]].
  - replace (4 * k) with (4 * k + 0) by lia. now rewrite of_nat_mod4 by lia.
  - now rewrite of_nat_mod4 by lia.
  - now rewrite of_nat_mod4 by lia.
Qed.

Lemma encode_groups_length (bs : list N) :
  (N.of_nat (List.length (encode_groups bs)) mod 4 =? 0)%N = true.
Proof.
  assert (H : exists k, List.length (encode_groups bs) = 4 * k).
  { induction bs as [|a|a b|a b c rest IH] using triples_ind; cbn [encode_groups List.length].
    - exists 0; lia.
    - exists 1; lia.
    - exists 1; lia.
    - destruct IH as [k Hk]. exists (S k). lia. }
  destruct H as [k ->].
  replace (4 * k) with (4 * k + 0) by lia. now rewrite of_nat_mod4 by lia.
Qed.

Lemma strip_padding_cons (c : ascii) (d : list ascii) :
  Ascii.eqb c pad = false -> strip_padding (c :: d) = c :: strip_padding d.
Proof.
  intros Hc. destruct d as [|c' [|c'' d]]; cbn [strip_padding is_padding_tail];
    rewrite ?Hc; reflexivity.
Qed.

Lemma strip_padding_encode (bs : list N) :
  small 256 bs ->
  strip_padding (encode_groups bs) = map b64_char (sextets_of bs).
Proof.
  unfold small. induction bs as [|a|a b|a b c rest IH] using triples_ind;
    intros Hb; cbn [sextets_of encode_groups map];
    repeat match goal with
           | H : List.Forall _ (_ :: _) |- _ => inversion_clear H
           end;
    rewrite ?strip_padding_cons by (apply b64_char_not_pad; divmod_vars; lia);
    [reflexivity | reflexivity | reflexivity | now rewrite IH].
Qed.

Lemma filter_whitespace_encode (bs : list N) :
  small 256 bs ->
  List.filter (fun c => negb (is_ascii_whitespace c)) (encode_groups bs)
  = encode_groups bs.
Proof.
  unfold small. induction bs as [|a|a b|a b c rest IH] using triples_ind;
    intros Hb; cbn [encode_groups List.filter];
    repeat match goal with
           | H : List.Forall _ (_ :: _) |- _ => inversion_clear H
           end;
    rewrite ?b64_char_not_whitespace by (divmod_vars; lia); cbn [negb];
    [reflexivity | reflexivity | reflexivity | now rewrite IH].
Qed.

Lemma values_of_chars (ss : list N) :
  small 64 ss -> values_of (map b64_char ss) = Some ss.
Proof.
  induction 1 as [|s ss Hs _ IH]; cbn [map values_of]; [reflexivity|].
  now rewrite b64_value_char, IH.
Qed.

Lemma decode_sextets_of (bs : list N) :
  small 256 bs -> decode_sextets (sextets_of bs) = bs.
Proof.
  unfold small. induction bs as [|a|a b|a b c rest IH] using triples_ind;
    intros Hb; cbn [sextets_of decode_sextets];
    repeat match goal with
           | H : List.Forall _ (_ :: _) |- _ => inversion_clear H
           end.
  - reflexivity.
  - now rewrite pack1.
  - cbv zeta. rewrite pack2, unpack_hi, unpack_lo by assumption. reflexivity.
  - cbv zeta. rewrite IH, pack3 by assumption.
    replace (a * 65536 + b * 256 + c)%N with ((a * 256 + b) * 256 + c)%N by lia.
    rewrite unpack_lo, (unpack_hi (a * 256 + b)), unpack_lo by assumption.
    replace ((a * 256 + b) * 256 + c)%N with (a * 65536 + (b * 256 + c))%N by lia.
    rewrite unpack_hi by lia. reflexivity.
Qed.

Lemma atob_encode_groups (bs : list N) :
  small 256 bs ->
  atob (string_of_list_ascii (encode_groups bs))
  = Some (string_of_list_ascii (map ascii_of_N bs)).
Proof.
  intros Hb. unfold atob.
  rewrite list_ascii_of_string_of_list_ascii, filter_whitespace_encode by assumption.
  rewrite encode_groups_length, strip_padding_encode by assumption.
  rewrite length_map, sextets_length.
  rewrite values_of_chars by (now apply sextets_small).
  now rewrite decode_sextets_of.
Qed.

Lemma code_units_small (l : list ascii) : small 256 (map N_of_ascii l).
Proof.
  unfold small. apply List.Forall_forall. intros n Hn.
  apply List.in_map_iff in Hn. destruct Hn as [c [<- _]].
  apply N_ascii_bounded.
Qed.

(** [atob] undoes [btoa] on every binary string. *)
Lemma atob_btoa (binary : string) : atob (btoa binary) = Some binary.
Proof.
  unfold btoa. rewrite atob_encode_groups by apply code_units_small.
  rewrite List.map_map.
  rewrite (List.map_ext _ (fun c => c)) by apply ascii_N_embedding.
  now rewrite List.map_id, string_of_list_ascii_of_string.
Qed.

(** C9: for every byte array [b], [decodeBase64 (encodeBase64 b)] returns
    a byte array equal to [b]: decoding does not throw and gives back the
    bytes that were encoded. *)
Theorem decodeBase64_encodeBase64 (b : list byte) :
  decodeBase64 (encodeBase64 b) = Some b.
Proof.
  unfold decodeBase64, encodeBase64. rewrite atob_btoa.
  rewrite list_ascii_of_string_of_list_ascii, List.map_map.
  rewrite (List.map_ext _ (fun x => x)) by apply byte_of_ascii_of_byte.
  now rewrite List.map_id.
Qed.
End Base64Facts.
(** ** Facts about numbers *)

Section NumFacts.
Import Num.

Example half_plus_three_tenths :
  add (div (of_Z 12000) (of_Z 24000)) (div (of_Z 7200) (of_Z 24000))
  = div (of_Z 8) (of_Z 10).
Proof. vm_compute. reflexivity. Qed.

Example ToInt16_examples :
  ToInt16 (mul (div (of_Z 1) (of_Z 2)) (of_Z 32768)) = 16384%Z
  /\ ToInt16 (mul (of_Z 1) (of_Z 32768)) = (-32768)%Z
  /\ ToInt16 (mul (div (of_Z (-1)) (of_Z 3)) (of_Z 32768)) = (-10922)%Z.
Proof. vm_compute. auto. Qed.

Lemma compare_refl (x : number) :
  is_nan x = false -> SFcompare x x = Some Eq.
Proof.
  destruct x as [s|s| |s m e]; cbn; try discriminate; intros _.
  - reflexivity.
  - now destruct s.
  - rewrite Z.compare_refl.
    assert (H : Pos.compare_cont Eq m m = Eq) by apply Pos.compare_cont_refl.
    rewrite H. now destruct s.
Qed.

Lemma leb_refl (x : number) : is_nan x = false -> leb x x = true.
Proof. intros H. unfold leb, SFleb. now rewrite compare_refl. Qed.

Lemma ltb_leb (x y : number) : ltb x y = true -> leb x y = true.
Proof.
  unfold ltb, leb, SFltb, SFleb.
  destruct (SFcompare x y) as [[]|]; congruence.
Qed.

Lemma compare_zeros (s : bool) (y : number) :
  is_nan y = false -> ltb (S754_zero s) y = false -> ltb y (S754_zero s) = false ->
  leb (S754_zero s) y = true.
Proof.
  destruct y as [s'|s'| |s' m e]; cbn; try discriminate; auto;
    destruct s'; cbn; congruence.
Qed.

(** [Math.max] is an upper bound of its first argument. *)
Lemma Math_max_ge_l (x y : number) :
  is_nan x = false -> is_nan y = false -> leb x (Math_max x y) = true.
Proof.
  intros Hx Hy. unfold Math_max. rewrite Hx, Hy. cbn [orb].
  destruct (ltb x y) eqn:Hxy; [now apply ltb_leb|].
  destruct (ltb y x) eqn:Hyx; [now apply leb_refl|].
  destruct x as [[]|s| |s m e]; try (now apply leb_refl).
  now apply compare_zeros.
Qed.

Lemma nonneg_not_nan (x : number) : is_nonneg x = true -> is_nan x = false.
Proof. now destruct x. Qed.

Lemma Math_max_nonneg (x y : number) :
  is_nonneg x = true -> is_nonneg y = true -> is_nonneg (Math_max x y) = true.
Proof.
  intros Hx Hy. unfold Math_max.
  rewrite (nonneg_not_nan x Hx), (nonneg_not_nan y Hy). cbn [orb].
  destruct (ltb x y); [assumption|]. destruct (ltb y x); [assumption|].
  destruct x as [[]|s| |s m e]; assumption.
Qed.

(** *** Rounding keeps the sign *)

Lemma shr_1_nonneg (mrs : shr_record) : (0 <= shr_m mrs)%Z -> (0 <= shr_m (shr_1 mrs))%Z.
Proof.
  destruct mrs as [m r s0]. cbn. intros Hm.
  destruct m as [|[p|p|]|[p|p|]]; cbn; lia.
Qed.

Lemma iter_shr_1_nonneg (p : positive) :
  forall mrs, (0 <= shr_m mrs)%Z -> (0 <= shr_m (SpecFloat.iter_pos shr_1 p mrs))%Z.
Proof.
  induction p as [p IH|p IH|]; intros mrs Hm; cbn [SpecFloat.iter_pos].
  - apply IH, IH, shr_1_nonneg, Hm.
  - apply IH, IH, Hm.
  - apply shr_1_nonneg, Hm.
Qed.

Lemma shr_fexp_nonneg (m e : Z) (l : location) :
  (0 <= m)%Z -> (0 <= shr_m (fst (shr_fexp prec emax m e l)))%Z.
Proof.
  intros Hm. unfold shr_fexp, shr.
  assert (H0 : (0 <= shr_m (shr_record_of_loc m l))%Z)
    by (destruct l as [|[]]; exact Hm).
  destruct (fexp prec emax (Zdigits2 m + e) - e)%Z; cbn [fst]; auto.
  now apply iter_shr_1_nonneg.
Qed.

Lemma round_nearest_even_nonneg (m : Z) (l : location) :
  (0 <= m)%Z -> (0 <= round_nearest_even m l)%Z.
Proof.
  intros Hm. unfold round_nearest_even.
  destruct l as [|[]]; try assumption; [destruct (Z.even m)|]; lia.
Qed.

(** Rounding a mantissa that is not negative, with the sign bit clear,
    gives a number that is not negative. *)
Lemma binary_round_aux_nonneg (m e : Z) (l : location) :
  (0 <= m)%Z -> is_nonneg (binary_round_aux prec emax false m e l) = true.
Proof.
  intros Hm. unfold binary_round_aux.
  pose proof (shr_fexp_nonneg m e l Hm) as H1.
  destruct (shr_fexp prec emax m e l) as [mrs' e'] eqn:E1. cbn [fst] in H1.
  pose proof (shr_fexp_nonneg _ e' loc_Exact
                (round_nearest_even_nonneg _ (loc_of_shr_record mrs') H1)) as H2.
  destruct (shr_fexp prec emax _ e' loc_Exact) as [mrs'' e''] eqn:E2.
  cbn [fst] in H2.
  destruct (shr_m mrs'') as [|p|p]; [reflexivity | | lia].
  now destruct (e'' <=? emax - prec)%Z.
Qed.

Lemma of_Z_nonneg (z : Z) : (0 <= z)%Z -> is_nonneg (of_Z z) = true.
Proof.
  intros Hz. unfold of_Z, binary_normalize.
  destruct z as [|p|p]; [reflexivity | | lia].
  unfold binary_round. destruct (shl_align _ _ _) as [mz ez].
  now apply binary_round_aux_nonneg.
Qed.

(** A sum of two numbers that are not negative is not negative (and so
    not NaN). *)
Lemma add_nonneg (x y : number) :
  is_nonneg x = true -> is_nonneg y = true -> is_nonneg (add x y) = true.
Proof.
  unfold add.
  destruct x as [sx|sx| |sx mx ex], y as [sy|sy| |sy my ey]; cbn [is_nonneg SFadd];
    try discriminate; try (intros; assumption).
  - intros _ _. now destruct sx, sy.
  - destruct sx, sy; try discriminate. reflexivity.
  - destruct sx, sy; try discriminate. intros _ _.
    unfold binary_normalize, cond_Zopp.
    destruct (Z.pos _ + Z.pos _)%Z as [|p|p] eqn:Hsum; [reflexivity | | lia].
    unfold binary_round. destruct (shl_align p _ _) as [mz ez].
    now apply binary_round_aux_nonneg.
Qed.

(** A quotient by a finite positive number. *)
Lemma div_nonneg (x : number) (my : positive) (ey : Z) :
  is_nonneg x = true -> is_nonneg (div x (S754_finite false my ey)) = true.
Proof.
  unfold div.
  destruct x as [sx|sx| |sx mx ex]; cbn [is_nonneg SFdiv]; try discriminate.
  - intros _. reflexivity.
  - now destruct sx.
  - destruct sx; [discriminate|]. intros _. cbn [xorb].
    unfold SFdiv_core_binary.
    set (s := (ex - ey - _)%Z).
    set (m' := match s with Z.pos _ => Z.shiftl (Z.pos mx) s | 0%Z => Z.pos mx
                          | Z.neg _ => 0%Z end).
    assert (Hm' : (0 <= m')%Z).
    { unfold m'. destruct s; try lia. apply Z.shiftl_nonneg. lia. }
    pose proof (Z_div_mod m' (Z.pos my) ltac:(lia)) as Hdiv.
    destruct (Z.div_eucl m' (Z.pos my)) as [q r].
    apply binary_round_aux_nonneg. nia.
Qed.
End NumFacts.

(** ** Facts about [callWithRetry] *)

Section RetryFacts.
Import Retry.

Example includes_examples :
  includes "Error 429: too many requests" "429" = true
  /\ includes "quota" "quota exceeded" = false
  /\ includes "" "" = true
  /\ isAuth "Quota exceeded for project 14031" = true.
Proof. vm_compute. auto. Qed.

(** Two quota errors, then success, with the default arguments. *)
Example retry_then_success :
  callWithRetry (fun i => if (i <? 2)%Z then inr (Error "429") else inl i) 2 2000
                (Some "AIza")
  = {| result := Resolved 2%Z; delays := [2000; 4000]%Z; attempts := 3 |}.
Proof. vm_compute. reflexivity. Qed.

Example retry_exhausted :
  callWithRetry (A := unit) (fun i => inr (Error "quota")) 2 2000 (Some "AIza")
  = {| result := Rejected (Some QUOTA_EXCEEDED); delays := [2000; 4000]%Z;
       attempts := 3 |}.
Proof. vm_compute. reflexivity. Qed.

Section Loop.
Context {A : Type}.
Variable fn : Z -> A + JsError.
Variables maxRetries initialDelay : Z.

(** One iteration that is retried. *)
Lemma loop_retry (fuel : nat) (i : Z) (last : option JsError) :
  (i < maxRetries)%Z -> retryable (fn i) = true ->
  exists error, fn i = inr error /\
    loop fn maxRetries initialDelay (S fuel) i last
    = let r := loop fn maxRetries initialDelay fuel (i + 1) (Some error) in
      {| result := result r;
         delays := (initialDelay * 2 ^ i)%Z :: delays r;
         attempts := S (attempts r) |}.
Proof.
  intros Hi Hr. unfold retryable in Hr.
  destruct (fn i) as [v|error] eqn:Hfn; [discriminate|].
  exists error. split; [reflexivity|].
  cbn [loop]. rewrite Hfn. fold (msg_of error).
  apply andb_prop in Hr as [Hr Hq]. apply andb_prop in Hr as [Ha Hn].
  apply negb_true_iff in Ha, Hn. rewrite Ha, Hn, Hq.
  replace (i <=? maxRetries)%Z with true by (symmetry; apply Z.leb_le; lia).
  replace (i <? maxRetries)%Z with true by (symmetry; apply Z.ltb_lt; lia).
  reflexivity.
Qed.

(** The iteration that ends the call. *)
Lemma loop_last (fuel : nat) (i : Z) (last : option JsError) :
  (i <= maxRetries)%Z ->
  ((i < maxRetries)%Z -> retryable (fn i) = false) ->
  loop fn maxRetries initialDelay (S fuel) i last = finish (verdict (fn i)).
Proof.
  intros Hi Hlast. cbn [loop].
  replace (i <=? maxRetries)%Z with true by (symmetry; apply Z.leb_le; lia).
  unfold verdict, retryable in *.
  destruct (fn i) as [v|error]; [reflexivity|]. fold (msg_of error).
  destruct (isAuth (msg_of error)); [reflexivity|].
  destruct (isNotFound (msg_of error)); [reflexivity|].
  destruct (isQuota (msg_of error)); [|reflexivity].
  destruct (i <? maxRetries)%Z eqn:Hlt; [|reflexivity].
  apply Z.ltb_lt in Hlt. specialize (Hlast Hlt). discriminate.
Qed.

Lemma loop_closed_form (n : nat) :
  forall (fuel : nat) (i : Z) (last : option JsError),
    n < fuel ->
    (i + Z.of_nat n <= maxRetries)%Z ->
    (forall j, (j < n)%nat -> retryable (fn (i + Z.of_nat j)) = true) ->
    ((i + Z.of_nat n < maxRetries)%Z -> retryable (fn (i + Z.of_nat n)) = false) ->
    loop fn maxRetries initialDelay fuel i last
    = {| result := verdict (fn (i + Z.of_nat n));
         delays := backoff initialDelay i n;
         attempts := S n |}.
Proof.
  induction n as [|n IH]; intros fuel i last Hfuel Hle Hretry Hlast.
  - destruct fuel as [|fuel]; [lia|].
    rewrite Z.add_0_r in *. now rewrite loop_last.
  - destruct fuel as [|fuel]; [lia|].
    destruct (loop_retry fuel i last) as [error [_ ->]]; [lia| |].
    { specialize (Hretry 0%nat). rewrite Z.add_0_r in Hretry. apply Hretry. lia. }
    cbv zeta. rewrite (IH fuel (i + 1)%Z (Some error)).
    + cbn [result delays attempts backoff]. do 2 f_equal. f_equal. lia.
    + lia.
    + lia.
    + intros j Hj. replace (i + 1 + Z.of_nat j)%Z with (i + Z.of_nat (S j))%Z by lia.
      apply Hretry. lia.
    + replace (i + 1 + Z.of_nat n)%Z with (i + Z.of_nat (S n))%Z by lia.
      intros H. apply Hlast. lia.
Qed.
End Loop.

(** C8: [callWithRetry] with an accepted key.  Let the attempts
    [0 .. n-1] fail with quota-style messages (the substrings "429",
    "quota", "RESOURCE_EXHAUSTED", and none of the auth or not-found
    substrings) and let attempt [n <= maxRetries] be the first that does
    not, or the last one allowed.  Then [fn] is called [n + 1] times,
    the call waits [initialDelay * 2^i] before attempt [i + 1] for each
    [i < n] and nothing else, and it ends with the verdict on attempt
    [n]: the value of [fn]; the API KEY error at once for an auth
    message ("403", "API key not valid", "PERMISSION_DENIED"); the MODEL
    error at once for a not-found message ("404", "model not found");
    QUOTA EXCEEDED for a quota message on the last attempt; the
    thrown value itself for a message that matches no substring. *)
Theorem callWithRetry_policy {A : Type} (fn : Z -> A + JsError)
    (maxRetries initialDelay : Z) (API_KEY : option string) (n : nat) :
  validateApiKey API_KEY = None ->
  (Z.of_nat n <= maxRetries)%Z ->
  (forall j, (j < n)%nat -> retryable (fn (Z.of_nat j)) = true) ->
  ((Z.of_nat n < maxRetries)%Z -> retryable (fn (Z.of_nat n)) = false) ->
  let r := callWithRetry fn maxRetries initialDelay API_KEY in
  attempts r = S n
  /\ delays r = backoff initialDelay 0 n
  /\ result r =
       match fn (Z.of_nat n) with
       | inl v => Resolved v
       | inr error =>
           if isAuth (msg_of error) then Rejected (Some API_KEY_ERROR)
           else if isNotFound (msg_of error) then Rejected (Some MODEL_ERROR)
           else if isQuota (msg_of error) then Rejected (Some QUOTA_EXCEEDED)
           else Rejected (Some error)
       end.
Proof.
  intros Hkey Hle Hretry Hlast r. subst r. unfold callWithRetry.
  rewrite Hkey.
  rewrite (loop_closed_form fn maxRetries initialDelay n); cbn [Z.add]; auto.
  lia.
Qed.

(** An auth error on the second attempt, after one quota error: one wait
    of 2000 ms, two calls, the API KEY error. *)
Lemma callWithRetry_policy_witness :
  let fn := fun i : Z => if (i <? 1)%Z then inr (A := unit) (Error "429 quota")
                         else inr (Error "403 PERMISSION_DENIED") in
  let r := callWithRetry fn 2 2000 (Some "AIza") in
  attempts r = 2 /\ delays r = [2000%Z]
  /\ result r = Rejected (Some API_KEY_ERROR).
Proof.
  intros fn.
  apply (callWithRetry_policy fn 2 2000 (Some "AIza") 1).
  - reflexivity.
  - lia.
  - intros j Hj. assert (j = 0%nat) as -> by lia. reflexivity.
  - intros _. reflexivity.
Defined.
End RetryFacts.

(** ** Facts about the voice session *)

(** Unfolds the record updates and computes the projections. *)
Ltac updates :=
  unfold Live.upd_view, Live.upd_world, Live.send, Live.onSaveMemory, Live.set_task,
    Live.set_view, Live.set_world, Live.set_tasks, Live.set_sent, Live.set_saved,
    Live.set_mics, Live.set_contexts, Live.set_sockets, Live.set_nodes,
    Live.set_isActive, Live.set_isMuted, Live.set_authError, Live.set_isValidating,
    Live.set_userInput, Live.set_aiOutput, Live.set_audioContextRef,
    Live.set_outputAudioContextRef, Live.set_sessionRef, Live.set_nextStartTimeRef,
    Live.set_sourcesRef, Live.set_micStreamRef in *;
  cbn [Live.view Live.world Live.tasks Live.sent Live.saved Live.mics Live.contexts Live.sockets Live.nodes
       Live.isActive Live.isMuted Live.authError Live.isValidating Live.userInput Live.aiOutput
       Live.audioContextRef Live.outputAudioContextRef Live.sessionRef Live.nextStartTimeRef
       Live.sourcesRef Live.micStreamRef] in *.

Section LiveFacts.
Import Num Live.

(** *** Teardown *)

Lemma insert_same {A : Type} (l : list A) (i : nat) (x : A) :
  l !! i = Some x \/ l !! i = None -> <[i := x]> l = l.
Proof.
  intros [H | H].
  - now apply list_insert_id.
  - apply list_insert_ge. now apply lookup_ge_None.
Qed.

Lemma try_source_stop (i : nat) (s : System) :
  try_ (source_stop i) s
  = Returned (upd_world (fun w => set_nodes (stop_one i (nodes w)) w) s).
Proof.
  unfold try_, source_stop, stop_one, stop_node.
  destruct s as [v [ms cs ss ns] ts se sa]; updates.
  destruct (ns !! i) as [n|] eqn:Hn; [|reflexivity].
  destruct (node_when n) eqn:Hw; [reflexivity|].
  rewrite insert_same by auto. reflexivity.
Qed.

Lemma for_each_stop (l : list nat) (s : System) :
  for_each l (fun source => try_ (source_stop source)) s
  = Returned (upd_world (fun w => set_nodes (stop_all l (nodes w)) w) s).
Proof.
  revert s. induction l as [|i l IH]; intros s; cbn [for_each stop_all].
  - unfold ret. now destruct s as [v [ms cs ss ns] ts se sa].
  - unfold seq. rewrite try_source_stop, IH.
    destruct s as [v [ms cs ss ns] ts se sa]. updates. reflexivity.
Qed.

Lemma stop_sources_eq (s : System) :
  stop_sources s
  = Returned (upd_world (fun w => set_nodes (stop_all (sourcesRef (view s)) (nodes w)) w) s).
Proof. apply for_each_stop. Qed.

Lemma try_session_close (h : nat) (s : System) :
  try_ (session_close h) s
  = Returned (upd_world (fun w => set_sockets (close_at (Some h) (sockets w)) w) s).
Proof.
  unfold try_, session_close, close_at.
  destruct s as [v [ms cs ss ns] ts se sa]; updates.
  destruct (ss !! h) as [[]|] eqn:Hh; cbn [close_socket]; try reflexivity;
    rewrite insert_same by auto; reflexivity.
Qed.

Lemma seq_returned (p q : Proc) (s s1 s2 : System) :
  p s = Returned s1 -> q s1 = Returned s2 -> (p >> q) s = Returned s2.
Proof. intros Hp Hq. unfold seq. now rewrite Hp. Qed.

Lemma close_session_ref (s : System) :
  when_ref sessionRef
    (fun h => try_ (session_close h) >> lift (upd_view (set_sessionRef None))) s
  = Returned (upd_view (set_sessionRef None)
      (upd_world (fun w => set_sockets (close_at (sessionRef (view s)) (sockets w)) w) s)).
Proof.
  unfold when_ref. destruct (sessionRef (view s)) as [h|] eqn:Hh.
  - unfold seq. rewrite try_session_close. reflexivity.
  - destruct s as [v [ms cs ss ns] ts se sa]. cbn in Hh.
    unfold upd_view, upd_world, set_view, set_world, set_sockets, set_sessionRef, close_at.
    cbn. destruct v; cbn in *. now subst.
Qed.

Lemma stop_mic_ref (s : System) :
  when_ref micStreamRef
    (fun m => track_stop m >> lift (upd_view (set_micStreamRef None))) s
  = Returned (upd_view (set_micStreamRef None)
      (upd_world (fun w => set_mics (at_ref (micStreamRef (view s)) TrackEnded
                                            (mics w)) w) s)).
Proof.
  unfold when_ref, at_ref. destruct (micStreamRef (view s)) as [m|] eqn:Hm.
  - reflexivity.
  - destruct s as [v [ms cs ss ns] ts se sa]. cbn in Hm.
    unfold upd_view, upd_world, set_view, set_world, set_mics, set_micStreamRef.
    cbn. destruct v; cbn in *. now subst.
Qed.

(** Lines 30-53 never throw, and [released] is what they leave. *)
Lemma stop_sync_released (s : System) : stop_sync s = Returned (released s).
Proof.
  unfold stop_sync.
  repeat eapply seq_returned.
  - reflexivity.
  - reflexivity.
  - apply close_session_ref.
  - apply stop_sources_eq.
  - reflexivity.
  - reflexivity.
  - rewrite stop_mic_ref.
    destruct s as [[ia im ae iv ui ao acr oacr sr nst srcs msr] [ms cs ss ns] ts se sa].
    reflexivity.
Qed.

Lemma stopSession_eq (s : System) :
  stopSession s = Returned (stop_input Fresh (released s)).
Proof. unfold stopSession, seq. now rewrite stop_sync_released. Qed.

(** Closing through a ref: the context it names is closed afterwards,
    whether or not the call has to await. *)
Lemma close_context_ref_eq (ref : View -> option nat) (s : System) :
  close_context_ref ref s
  = (upd_world (fun w => set_contexts (at_ref (ref (view s)) Closed (contexts w)) w) s,
     awaited ref s).
Proof.
  unfold close_context_ref, awaited, at_ref, context_close, context_state.
  destruct (ref (view s)) as [c|].
  - destruct s as [v [ms cs ss ns] ts se sa]; updates.
    destruct (cs !! c) as [[]|] eqn:Hc; cbn; try reflexivity;
      rewrite insert_same by auto; reflexivity.
  - now destruct s as [v [ms cs ss ns] ts se sa].
Qed.

Lemma stop_node_quiet (n : SourceNode) : plays (stop_node n) = false.
Proof.
  unfold stop_node, plays. destruct (node_when n) eqn:H; cbn; now rewrite ?H.
Qed.

Lemma stop_one_length (x : nat) (ns : list SourceNode) :
  List.length (stop_one x ns) = List.length ns.
Proof. unfold stop_one. destruct (ns !! x); [apply length_insert | reflexivity]. Qed.

Lemma stop_one_lookup (x j : nat) (ns : list SourceNode) (n : SourceNode) :
  stop_one x ns !! j = Some n ->
  exists n0, ns !! j = Some n0
             /\ (plays n0 = false -> plays n = false)
             /\ (j = x -> plays n = false).
Proof.
  unfold stop_one. destruct (ns !! x) as [nx|] eqn:Hx.
  - destruct (decide (x = j)) as [->|Hne].
    + rewrite list_lookup_insert_eq by (eapply lookup_lt_Some; eauto).
      intros [= <-]. exists nx. repeat split; auto using stop_node_quiet.
    + rewrite list_lookup_insert_ne by assumption.
      intros Hj. exists n. repeat split; auto. congruence.
  - intros Hj. exists n. repeat split; auto. intros ->. congruence.
Qed.

(** Stopping changes neither the buffer of a node nor its start time. *)
Lemma stop_one_keeps (x j : nat) (ns : list SourceNode) (n : SourceNode) :
  stop_one x ns !! j = Some n ->
  exists n0, ns !! j = Some n0
             /\ node_buffer n = node_buffer n0 /\ node_when n = node_when n0.
Proof.
  unfold stop_one. destruct (ns !! x) as [nx|] eqn:Hx.
  - destruct (decide (x = j)) as [->|Hne].
    + rewrite list_lookup_insert_eq by (eapply lookup_lt_Some; eauto).
      intros [= <-]. exists nx. split; [assumption|].
      unfold stop_node. destruct (node_when nx) eqn:Hw; cbn; auto.
    + rewrite list_lookup_insert_ne by assumption. intros Hj. now exists n.
  - intros Hj. now exists n.
Qed.

Lemma stop_all_keeps (l : list nat) :
  forall (ns : list SourceNode) (j : nat) (n : SourceNode),
    stop_all l ns !! j = Some n ->
    exists n0, ns !! j = Some n0
               /\ node_buffer n = node_buffer n0 /\ node_when n = node_when n0.
Proof.
  induction l as [|x l IH]; intros ns j n Hn; cbn [stop_all] in Hn.
  - now exists n.
  - destruct (IH _ _ _ Hn) as (n1 & H1 & Hb1 & Hw1).
    destruct (stop_one_keeps _ _ _ _ H1) as (n0 & H0 & Hb0 & Hw0).
    exists n0. repeat split; congruence.
Qed.

Lemma stop_all_length (l : list nat) (ns : list SourceNode) :
  List.length (stop_all l ns) = List.length ns.
Proof.
  revert ns. induction l as [|x l IH]; intros ns; cbn; [reflexivity|].
  now rewrite IH, stop_one_length.
Qed.

(** A node that does not play stays so. *)
Lemma stop_all_quiet (l : list nat) :
  forall (ns : list SourceNode) (j : nat) (n0 n : SourceNode),
    ns !! j = Some n0 -> plays n0 = false ->
    stop_all l ns !! j = Some n -> plays n = false.
Proof.
  induction l as [|x l IH]; intros ns j n0 n H0 Hq Hn; cbn in Hn.
  - congruence.
  - assert (Hlt : j < List.length (stop_one x ns)).
    { rewrite stop_one_length. eapply lookup_lt_Some; eauto. }
    apply lookup_lt_is_Some_2 in Hlt as [n1 H1].
    destruct (stop_one_lookup _ _ _ _ H1) as [n0' [H0' [Hmono _]]].
    apply (IH (stop_one x ns) j n1 n H1); [|exact Hn].
    apply Hmono. congruence.
Qed.

(** Every node [stop_all] is asked to stop does not play afterwards. *)
Lemma stop_all_stops (l : list nat) :
  forall (ns : list SourceNode) (i : nat) (n : SourceNode),
    i ∈ l -> stop_all l ns !! i = Some n -> plays n = false.
Proof.
  induction l as [|x l IH]; intros ns i n Hi Hn; [inversion Hi|].
  cbn in Hn.
  assert (Hlt : i < List.length (stop_one x ns)).
  { rewrite <- (stop_all_length l). eapply lookup_lt_Some; eauto. }
  apply lookup_lt_is_Some_2 in Hlt as [n1 H1].
  destruct (stop_one_lookup _ _ _ _ H1) as [n0 [H0 [_ Hx]]].
  apply elem_of_cons in Hi as [->|Hi].
  - eapply (stop_all_quiet l (stop_one x ns) x n1); eauto.
  - eapply IH; eauto.
Qed.

Lemma default_insert {A : Type} (l : list A) (i : nat) (x : A) :
  default x (<[i := x]> l !! i) = x.
Proof.
  destruct (decide (i < List.length l)) as [Hlt|Hge].
  - now rewrite list_lookup_insert_eq.
  - rewrite list_insert_ge by lia.
    now rewrite (lookup_ge_None_2 l i) by lia.
Qed.

Lemma default_insert_twice {A : Type} (l : list A) (i j k : nat) (x : A) :
  k = i \/ k = j -> default x (<[i := x]> (<[j := x]> l) !! k) = x.
Proof.
  intros [-> | ->]; [apply default_insert|].
  destruct (decide (i = j)) as [->|Hne]; [apply default_insert|].
  rewrite list_lookup_insert_ne by assumption. apply default_insert.
Qed.

Lemma insert_not_other {A : Type} (l : list A) (i : nat) (x y : A) :
  x <> y -> <[i := x]> l !! i <> Some y.
Proof.
  intros Hxy. destruct (decide (i < List.length l)) as [Hlt|Hge].
  - rewrite list_lookup_insert_eq by assumption. congruence.
  - rewrite list_insert_ge by lia.
    rewrite (lookup_ge_None_2 l i) by lia. discriminate.
Qed.

End LiveFacts.
Section StopFacts.
Import Num Live.

Variable API_KEY : option string.

(** *** [stopSession] and its awaits *)

Lemma lookup_snoc {A : Type} (l : list A) (x : A) : (l ++ [x]) !! List.length l = Some x.
Proof. now rewrite list_lookup_middle. Qed.

Lemma insert_snoc {A : Type} (l : list A) (x y : A) :
  <[List.length l := y]> (l ++ [x]) = l ++ [y].
Proof.
  rewrite insert_app_r_alt by lia. now rewrite Nat.sub_diag.
Qed.


Lemma context_closed_in (k a : nat) (s : System) :
  tasks s !! k = Some (AwaitCloseIn a) ->
  context_closed k s = stop_output (Resumed k) s.
Proof. intros H. unfold context_closed. now rewrite H. Qed.

Lemma context_closed_out (k o : nat) (s : System) :
  tasks s !! k = Some (AwaitCloseOut o) ->
  context_closed k s = stop_refs (Resumed k) s.
Proof. intros H. unfold context_closed. now rewrite H. Qed.

Lemma context_closed_finished (k : nat) (s : System) :
  tasks s !! k = Some Finished \/ tasks s !! k = None ->
  context_closed k s = s.
Proof. intros [H|H]; unfold context_closed; now rewrite H. Qed.

Ltac stop_records :=
  unfold stop_refs, leave, park, set_task, stopped_view, stopped_world;
  cbn [tasks set_tasks upd_world upd_view set_view set_world released
       view world sent saved];
  rewrite ?insert_snoc.

(** The call of [stopSession] made in [s], once its awaits have
    settled with no other handler in between. *)
Lemma stop_input_settles (s : System) :
  let s' := run API_KEY (settled s) (stop_input Fresh (released s)) in
  view s' = stopped_view s
  /\ world s' = stopped_world s
  /\ sent s' = sent s /\ saved s' = saved s
  /\ (tasks s' = tasks s \/ tasks s' = tasks s ++ [Finished]).
Proof.
  unfold settled, stop_input. cbn [run step].
  rewrite close_context_ref_eq.
  destruct (awaited audioContextRef (released s)) as [a|].
  - match goal with |- context [context_closed _ (context_closed _ ?x)] =>
      set (s2 := x) end.
    assert (H2 : tasks s2 !! List.length (tasks s) = Some (AwaitCloseIn a))
      by apply lookup_snoc.
    rewrite (context_closed_in _ _ s2 H2).
    unfold stop_output. rewrite close_context_ref_eq.
    destruct (awaited outputAudioContextRef s2) as [o|].
    + match goal with |- context [context_closed _ ?x] => set (s3 := x) end.
      assert (H3 : tasks s3 !! List.length (tasks s) = Some (AwaitCloseOut o)).
      { unfold s3, s2. stop_records. apply lookup_snoc. }
      rewrite (context_closed_out _ _ s3 H3).
      unfold s3, s2. stop_records.
      destruct s as [[ia im ae iv ui ao acr oacr sr nst srcs msr] [ms cs ss ns] ts se sa].
      repeat split; auto.
    + match goal with |- context [context_closed _ ?x] => set (s3 := x) end.
      assert (H3 : tasks s3 !! List.length (tasks s) = Some Finished).
      { unfold s3, s2. stop_records. apply lookup_snoc. }
      rewrite (context_closed_finished _ s3) by auto.
      unfold s3, s2. stop_records.
      destruct s as [[ia im ae iv ui ao acr oacr sr nst srcs msr] [ms cs ss ns] ts se sa].
      repeat split; auto.
  - unfold stop_output. rewrite close_context_ref_eq.
    match goal with |- context [awaited outputAudioContextRef ?x] =>
      destruct (awaited outputAudioContextRef x) as [o|] end.
    + match goal with |- context [context_closed _ (context_closed _ ?x)] =>
        set (s2 := x) end.
      assert (H2 : tasks s2 !! List.length (tasks s) = Some (AwaitCloseOut o))
        by apply lookup_snoc.
      rewrite (context_closed_out _ _ s2 H2).
      match goal with |- context [context_closed _ ?x] => set (s3 := x) end.
      assert (H3 : tasks s3 !! List.length (tasks s) = Some Finished).
      { unfold s3, s2. stop_records. apply lookup_snoc. }
      rewrite (context_closed_finished _ s3) by auto.
      unfold s3, s2. stop_records.
      destruct s as [[ia im ae iv ui ao acr oacr sr nst srcs msr] [ms cs ss ns] ts se sa].
      repeat split; auto.
    + match goal with |- context [context_closed _ (context_closed _ ?x)] =>
        set (s2 := x) end.
      assert (H2 : tasks s2 !! List.length (tasks s) = None).
      { unfold s2. stop_records. apply lookup_ge_None_2. lia. }
      rewrite !(context_closed_finished _ s2) by auto.
      unfold s2. stop_records.
      destruct s as [[ia im ae iv ui ao acr oacr sr nst srcs msr] [ms cs ss ns] ts se sa].
      repeat split; auto.
Qed.
End StopFacts.
Section TeardownClaims.
Import Num Live.

Lemma stop_one_other (x i : nat) (ns : list SourceNode) :
  x <> i -> stop_one x ns !! i = ns !! i.
Proof.
  intros Hne. unfold stop_one. destruct (ns !! x); [|reflexivity].
  now apply list_lookup_insert_ne.
Qed.

(** [stop_all] leaves the nodes it is not asked to stop as they are. *)
Lemma stop_all_other (l : list nat) :
  forall (ns : list SourceNode) (i : nat), i ∉ l -> stop_all l ns !! i = ns !! i.
Proof.
  induction l as [|x l IH]; intros ns i Hi; cbn [stop_all]; [reflexivity|].
  apply not_elem_of_cons in Hi as [Hne Hi].
  rewrite IH by assumption. apply stop_one_other. congruence.
Qed.

Lemma at_ref_other {A : Type} (ref : option nat) (x : A) (l : list A) (i : nat) :
  ref <> Some i -> at_ref ref x l !! i = l !! i.
Proof.
  destruct ref as [r|]; [|reflexivity]. intros Hne. cbn.
  apply list_lookup_insert_ne. congruence.
Qed.

Lemma close_at_other (ref : option nat) (l : list SocketState) (i : nat) :
  ref <> Some i -> close_at ref l !! i = l !! i.
Proof.
  destruct ref as [r|]; [|reflexivity]. intros Hne. cbn.
  destruct (l !! r); [|reflexivity]. apply list_lookup_insert_ne. congruence.
Qed.

Lemma close_at_closes (h : nat) (l : list SocketState) :
  default SocketClosed (close_at (Some h) l !! h) = Closing
  \/ default SocketClosed (close_at (Some h) l !! h) = SocketClosed.
Proof.
  cbn. destruct (l !! h) as [c|] eqn:Hc.
  - rewrite list_lookup_insert_eq by (eapply lookup_lt_Some; eauto).
    destruct c; cbn; auto.
  - rewrite Hc. cbn. auto.
Qed.

(** What the call of [stopSession] leaves at its first [await]: of the
    view, the context refs aside, and of the world, the contexts aside,
    it is what lines 30-53 have left. *)
Lemma stop_input_fresh (s : System) :
  let s1 := stop_input Fresh s in
  isActive (view s1) = isActive (view s)
  /\ isValidating (view s1) = isValidating (view s)
  /\ sessionRef (view s1) = sessionRef (view s)
  /\ sourcesRef (view s1) = sourcesRef (view s)
  /\ nextStartTimeRef (view s1) = nextStartTimeRef (view s)
  /\ micStreamRef (view s1) = micStreamRef (view s)
  /\ mics (world s1) = mics (world s)
  /\ sockets (world s1) = sockets (world s)
  /\ nodes (world s1) = nodes (world s)
  /\ exists more, tasks s1 = tasks s ++ more.
Proof.
  unfold stop_input, stop_output. rewrite close_context_ref_eq.
  destruct (awaited audioContextRef s) as [a|].
  - destruct s as [[ia im ae iv ui ao acr oacr sr nst srcs msr] [ms cs ss ns] ts se sa].
    cbn. repeat split. now eexists.
  - rewrite close_context_ref_eq.
    match goal with |- context [awaited outputAudioContextRef ?x] =>
      destruct (awaited outputAudioContextRef x) as [o|] end.
    + destruct s as [[ia im ae iv ui ao acr oacr sr nst srcs msr] [ms cs ss ns] ts se sa].
      cbn. repeat split. now eexists.
    + destruct s as [[ia im ae iv ui ao acr oacr sr nst srcs msr] [ms cs ss ns] ts se sa].
      cbn. repeat split. exists []. now rewrite app_nil_r.
Qed.

(** A call of [stopSession] in a system that a settled call has left
    finds nothing to do. *)
Lemma stopSession_again (s x : System) :
  view x = stopped_view s -> stopSession x = Returned x.
Proof.
  intros Hv. rewrite stopSession_eq. f_equal.
  destruct x as [v [ms cs ss ns] ts se sa]. cbn in Hv. subst v.
  destruct s as [[ia im ae iv ui ao acr oacr sr nst srcs msr] w ts0 se0 sa0].
  reflexivity.
Qed.

(** C4 (as amended): from every state, with whatever resources already
    closed or never started, the call of [stopSession] does not throw.
    At its first [await] the system is idle, the pending set is empty,
    [nextStartTimeRef] is zero, [sessionRef] and [micStreamRef] are
    null, the session that [sessionRef] named is closing or closed, the
    microphone track that [micStreamRef] named is not live and the
    sources that were pending do not play: an exception of
    [session.close()] or [source.stop()] on a resource that is already
    closed does not keep the later steps from running.  Once its awaits
    have settled, no other handler having run since the call, the
    audio contexts that the two refs named are closed and both refs are
    null.  It releases through the refs only: the tracks, contexts,
    sessions and sources that the refs did not name are as they were,
    and no call in flight is cancelled.  A second call then returns
    too and changes nothing. *)
Theorem stopSession_teardown (API_KEY : option string) (s : System) :
  exists s1, stopSession s = Returned s1
    /\ idle s1 = true
    /\ sessionRef (view s1) = None
    /\ sourcesRef (view s1) = []
    /\ nextStartTimeRef (view s1) = zero
    /\ micStreamRef (view s1) = None
    /\ (forall h, sessionRef (view s) = Some h ->
                  socket_state s1 h = Closing \/ socket_state s1 h = SocketClosed)
    /\ (forall m, micStreamRef (view s) = Some m -> mics (world s1) !! m <> Some TrackLive)
    /\ (forall i n, i ∈ sourcesRef (view s) -> nodes (world s1) !! i = Some n ->
                    plays n = false)
    /\ let s' := run API_KEY (settled s) s1 in
       idle s' = true
       /\ sessionRef (view s') = None
       /\ sourcesRef (view s') = []
       /\ nextStartTimeRef (view s') = zero
       /\ micStreamRef (view s') = None
       /\ audioContextRef (view s') = None
       /\ outputAudioContextRef (view s') = None
       /\ (forall c, audioContextRef (view s) = Some c \/ outputAudioContextRef (view s) = Some c ->
                     context_state s' c = Closed)
       /\ (forall c, audioContextRef (view s) <> Some c ->
                     outputAudioContextRef (view s) <> Some c ->
                     contexts (world s') !! c = contexts (world s) !! c)
       /\ (forall m, micStreamRef (view s) <> Some m ->
                     mics (world s') !! m = mics (world s) !! m)
       /\ (forall h, sessionRef (view s) <> Some h ->
                     sockets (world s') !! h = sockets (world s) !! h)
       /\ (forall i, i ∉ sourcesRef (view s) ->
                     nodes (world s') !! i = nodes (world s) !! i)
       /\ (forall k t, tasks s !! k = Some t -> tasks s' !! k = Some t)
       /\ stopSession s' = Returned s'.
Proof.
  exists (stop_input Fresh (released s)). split; [apply stopSession_eq|].
  destruct (stop_input_fresh (released s))
    as (Ha & Hv & Hs & Hsrc & Hn & Hm & Hmics & Hsock & Hnodes & _).
  split; [unfold idle; now rewrite Ha, Hv|].
  split; [now rewrite Hs|]. split; [now rewrite Hsrc|].
  split; [now rewrite Hn|]. split; [now rewrite Hm|].
  split; [|split; [|split]].
  - intros h Hh. unfold socket_state. rewrite Hsock. cbn. rewrite Hh.
    apply close_at_closes.
  - intros m Hm'. rewrite Hmics. cbn. rewrite Hm'. cbn.
    now apply insert_not_other.
  - intros i n Hi Hn'. rewrite Hnodes in Hn'. cbn in Hn'.
    eapply stop_all_stops; eauto.
  - destruct (stop_input_settles API_KEY s) as (Hview & Hworld & _ & _ & Htasks).
    cbv zeta.
    set (s' := run API_KEY (settled s) (stop_input Fresh (released s))) in *.
    unfold idle. rewrite Hview. unfold context_state. rewrite Hworld.
    repeat (split; [reflexivity|]).
    split; [|split; [|split; [|split; [|split; [|split]]]]].
    + intros c Hc. cbn.
      destruct (audioContextRef (view s)) as [a|], (outputAudioContextRef (view s)) as [o|];
        cbn; destruct Hc as [[= ->] | [= ->]].
      * apply default_insert_twice; auto.
      * apply default_insert_twice; auto.
      * apply default_insert.
      * apply default_insert.
    + intros c Hin Hout. cbn. now rewrite !at_ref_other.
    + intros m Hm'. cbn. now rewrite at_ref_other.
    + intros h Hh. cbn. now rewrite close_at_other.
    + intros i Hi. cbn. now apply stop_all_other.
    + intros k t Hk. destruct Htasks as [-> | ->]; [exact Hk|].
      now apply lookup_app_l_Some.
    + apply (stopSession_again s). exact Hview.
Qed.

(** [session.close()] and [source.stop()] throw in [half_closed], and
    [stopSession] still runs to its end. *)
Lemma stopSession_teardown_witness :
  session_close 0 half_closed = Threw half_closed
  /\ source_stop 3 half_closed = Threw half_closed
  /\ exists s1, stopSession half_closed = Returned s1
       /\ idle s1 = true
       /\ sourcesRef (view s1) = []
       /\ micStreamRef (view s1) = None
       /\ socket_state s1 0 = SocketClosed
       /\ mics (world s1) !! 0 <> Some TrackLive
       /\ let s' := run None (settled half_closed) s1 in
          audioContextRef (view s') = None
          /\ outputAudioContextRef (view s') = None
          /\ context_state s' 0 = Closed
          /\ context_state s' 1 = Closed
          /\ stopSession s' = Returned s'.
Proof.
  split; [reflexivity|]. split; [reflexivity|].
  destruct (stopSession_teardown None half_closed)
    as (s1 & Hrun & Hidle & _ & Hsrc & _ & Hmic & Hsock & Htrack & _ & Hlater).
  exists s1. split; [exact Hrun|]. split; [exact Hidle|]. split; [exact Hsrc|].
  split; [exact Hmic|]. split.
  { assert (Hs1 : s1 = settle (stopSession half_closed)) by now rewrite Hrun.
    subst s1. reflexivity. }
  split; [exact (Htrack 0 eq_refl)|].
  destruct Hlater as (_ & _ & _ & _ & _ & Hin & Hout & Hctx & _ & _ & _ & _ & _ & Hagain).
  split; [exact Hin|]. split; [exact Hout|].
  split; [exact (Hctx 0 (or_introl eq_refl))|].
  split; [exact (Hctx 1 (or_intror eq_refl)) | exact Hagain].
Defined.

(** C4, the claim as stated fails.  The hang-up button while
    [startSession] awaits [inputCtx.resume()] is the final stop of the
    sequence and leaves the system idle with the two audio contexts
    open (they are not in the refs yet), not with zero.  And with the
    large button only: a stop, and a start whose contexts reach the
    refs before the [close()] that the stop awaits has settled; the
    stop then goes on with the context of the new session and nulls
    both refs, and after the final stop, all settled, two audio
    contexts stay open. *)
Lemma stop_leaves_contexts_open :
  (let s := run (Some "key") [ClickMain; MicGranted 0; Stop] init in
   idle s = true /\ tasks s = [AwaitResumeIn false 0 0 1]
   /\ open_contexts (world s) = 2 /\ open_contexts (world s) <> 0)
  /\ (let s := run (Some "key")
                  [ClickMain; MicGranted 0; ResumedIn 0; ResumedOut 0; HandshakeOpen 0;
                   ClickMain; ClickMain; MicGranted 2; ResumedIn 2; ResumedOut 2;
                   ContextClosed 1; ContextClosed 1; HandshakeOpen 2;
                   ClickMain; SessionClose 0; SessionClose 2] init in
      idle s = true
      /\ tasks s = [Connected false 0 0 1 0; Finished; Connected false 1 2 3 1]
      /\ contexts (world s) = [Closed; Running; Running; Closed]
      /\ open_contexts (world s) = 2 /\ open_contexts (world s) <> 0).
Proof. vm_compute. repeat split; discriminate. Qed.

Lemma caption_returns (setter : string -> View -> View) (t : option Transcription)
    (s : System) :
  (forall x v, sourcesRef (setter x v) = sourcesRef v
               /\ nextStartTimeRef (setter x v) = nextStartTimeRef v
               /\ outputAudioContextRef (setter x v) = outputAudioContextRef v) ->
  exists s1, set_caption setter t s = Returned s1
    /\ sourcesRef (view s1) = sourcesRef (view s) /\ world s1 = world s
    /\ nextStartTimeRef (view s1) = nextStartTimeRef (view s)
    /\ outputAudioContextRef (view s1) = outputAudioContextRef (view s).
Proof.
  intros Hset. unfold set_caption, lift, ret.
  destruct t as [tr|]; [destruct (truthy (tr_text tr))|];
    eexists; (split; [reflexivity|]); cbn; repeat split; auto; apply Hset.
Qed.

(** The captions of a message leave the refs and the world alone. *)
Lemma captions_return (message : LiveServerMessage) (s : System) :
  exists s1, handle_transcriptions message s = Returned s1
    /\ sourcesRef (view s1) = sourcesRef (view s) /\ world s1 = world s
    /\ nextStartTimeRef (view s1) = nextStartTimeRef (view s)
    /\ outputAudioContextRef (view s1) = outputAudioContextRef (view s).
Proof.
  unfold handle_transcriptions.
  destruct (serverContent message) as [sc|];
    [|exists s; now repeat split].
  destruct (caption_returns set_userInput (inputTranscription sc) s)
    as (s1 & H1 & Hs1 & Hw1 & Hn1 & Ho1); [now repeat split|].
  destruct (caption_returns set_aiOutput (outputTranscription sc) s1)
    as (s2 & H2 & Hs2 & Hw2 & Hn2 & Ho2); [now repeat split|].
  exists s2. split; [eapply seq_returned; eauto|]. repeat split; congruence.
Qed.

(** C6: an interruption event, handled in a state with any number of
    pending sources, returns with an empty pending set and
    [nextStartTimeRef] at zero, and none of the sources that were
    pending plays any more. *)
Theorem interruption_clears_pending (session : nat) (now : number)
    (input output : option Transcription) (s : System) :
  exists s', onmessage session (interruption_event input output) now s = Returned s'
    /\ sourcesRef (view s') = []
    /\ List.length (sourcesRef (view s')) = 0
    /\ nextStartTimeRef (view s') = zero
    /\ (forall i n, i ∈ sourcesRef (view s) -> nodes (world s') !! i = Some n ->
                    plays n = false).
Proof.
  destruct (captions_return (interruption_event input output) s)
    as (s1 & Hcap & Hsrc & Hworld & _).
  assert (Hrun : onmessage session (interruption_event input output) now s
                 = interruption s1).
  { unfold onmessage, seq. cbn [handle_toolCall interruption_event toolCall ret].
    rewrite Hcap. reflexivity. }
  rewrite Hrun. unfold interruption.
  eexists. split.
  { repeat eapply seq_returned; [apply stop_sources_eq | reflexivity | reflexivity]. }
  repeat (split; [reflexivity|]).
  intros i n Hi Hn. cbn in Hn. rewrite Hsrc in Hn.
  eapply stop_all_stops; eauto.
Qed.

(** Two pending sources, then the interruption. *)
Lemma interruption_clears_pending_witness :
  sourcesRef (view two_pending) = [0; 1]
  /\ exists s', onmessage 0 (interruption_event None None) zero two_pending = Returned s'
       /\ sourcesRef (view s') = []
       /\ nextStartTimeRef (view s') = zero
       /\ (forall n, nodes (world s') !! 0 = Some n -> plays n = false)
       /\ (forall n, nodes (world s') !! 1 = Some n -> plays n = false).
Proof.
  split; [vm_compute; reflexivity|].
  destruct (interruption_clears_pending 0 zero None None two_pending)
    as (s' & Hrun & Hsrc & _ & Hnext & Hquiet).
  assert (Hpending : sourcesRef (view two_pending) = [0; 1])
    by (vm_compute; reflexivity).
  exists s'. split; [exact Hrun|]. split; [exact Hsrc|]. split; [exact Hnext|].
  split; intros n; apply Hquiet; rewrite Hpending.
  - apply list_elem_of_here.
  - apply list_elem_of_further, list_elem_of_here.
Defined.
End TeardownClaims.

Section MessageClaims.
Import Num Live.

(** *** Which handlers touch the logs *)

Lemma keeps_logs_seq (p q : Proc) : keeps_logs p -> keeps_logs q -> keeps_logs (p >> q).
Proof.
  intros Hp Hq s. unfold seq. specialize (Hp s).
  destruct (p s) as [s1|s1]; cbn in *; [|assumption].
  destruct (Hq s1) as [H1 H2]. destruct Hp as [H3 H4]. split; congruence.
Qed.

Lemma keeps_logs_ret : keeps_logs ret.
Proof. intros s. now split. Qed.

Lemma keeps_logs_throw : keeps_logs throw.
Proof. intros s. now split. Qed.

Lemma keeps_logs_try (p : Proc) : keeps_logs p -> keeps_logs (try_ p).
Proof. intros Hp s. unfold try_. specialize (Hp s). now destruct (p s). Qed.

Lemma keeps_logs_view (f : View -> View) : keeps_logs (lift (upd_view f)).
Proof. intros s. now split. Qed.

Lemma keeps_logs_for_each {A : Type} (l : list A) (body : A -> Proc) :
  (forall x, keeps_logs (body x)) -> keeps_logs (for_each l body).
Proof.
  intros Hb. induction l as [|x l IH]; cbn [for_each].
  - apply keeps_logs_ret.
  - now apply keeps_logs_seq.
Qed.

Lemma keeps_logs_source_stop (i : nat) : keeps_logs (source_stop i).
Proof.
  intros s. unfold source_stop.
  destruct (nodes (world s) !! i) as [n|]; [|now split].
  destruct (node_when n); now split.
Qed.

Lemma keeps_logs_stop_sources : keeps_logs stop_sources.
Proof.
  intros s. unfold stop_sources.
  apply (keeps_logs_for_each (sourcesRef (view s))).
  intros x. apply keeps_logs_try, keeps_logs_source_stop.
Qed.

Lemma keeps_logs_context_resume (c : nat) : keeps_logs (context_resume c).
Proof.
  intros s. unfold context_resume.
  destruct (is_closed (context_state s c)); now split.
Qed.

Lemma keeps_logs_caption (setter : string -> View -> View) (t : option Transcription) :
  keeps_logs (set_caption setter t).
Proof.
  unfold set_caption. destruct t as [tr|]; [|apply keeps_logs_ret].
  destruct (truthy (tr_text tr)); [apply keeps_logs_view | apply keeps_logs_ret].
Qed.

Lemma keeps_logs_transcriptions (message : LiveServerMessage) :
  keeps_logs (handle_transcriptions message).
Proof.
  unfold handle_transcriptions. destruct (serverContent message) as [sc|].
  - apply keeps_logs_seq; apply keeps_logs_caption.
  - apply keeps_logs_ret.
Qed.

Lemma keeps_logs_schedule (now : number) (b : AudioBuffer) : keeps_logs (lift (schedule now b)).
Proof. intros s. now split. Qed.

Lemma keeps_logs_audio (message : LiveServerMessage) (now : number) :
  keeps_logs (handle_audio message now).
Proof.
  intros s. unfold handle_audio.
  destruct (truthy (base64Audio message)); [|now split].
  destruct (outputAudioContextRef (view s)) as [ctx|]; [|now split].
  apply keeps_logs_seq.
  - intros s0. unfold resume_if_suspended.
    destruct (context_state s0 ctx); try (now split).
    apply keeps_logs_context_resume.
  - destruct (decode_chunk _); [apply keeps_logs_schedule | apply keeps_logs_throw].
Qed.

Lemma keeps_logs_interrupted (message : LiveServerMessage) :
  keeps_logs (handle_interrupted message).
Proof.
  unfold handle_interrupted. destruct (serverContent message) as [sc|];
    [|apply keeps_logs_ret].
  destruct (interrupted sc); [|apply keeps_logs_ret].
  unfold interruption.
  repeat apply keeps_logs_seq; auto using keeps_logs_stop_sources, keeps_logs_view.
Qed.

Lemma handle_function_call_save (session : nat) (fc : FunctionCall) (args : Args)
    (s : System) :
  is_save fc = true -> fc_args fc = Some args ->
  handle_function_call session fc s
  = Returned (send session (ToolResponse (fc_id fc) (fc_name fc) acknowledgement)
                (onSaveMemory (info args) s)).
Proof.
  unfold is_save, handle_function_call. intros -> ->. reflexivity.
Qed.

Lemma handle_function_call_other (session : nat) (fc : FunctionCall) (s : System) :
  is_save fc = false -> handle_function_call session fc s = Returned s.
Proof. unfold is_save, handle_function_call. now intros ->. Qed.

(** The loop over the function calls, when every call of the tool
    carries its arguments. *)
Lemma function_calls_answered (session : nat) (calls : list FunctionCall) :
  forall s,
    (forall fc, fc ∈ calls -> is_save fc = true -> is_Some (fc_args fc)) ->
    exists s', for_each calls (handle_function_call session) s = Returned s'
      /\ saved s' = saved s ++ map fc_info (List.filter is_save calls)
      /\ sent s' = sent s ++ map (response_to session) (List.filter is_save calls).
Proof.
  induction calls as [|fc calls IH]; intros s Hargs; cbn [for_each List.filter map].
  - exists s. rewrite !app_nil_r. now repeat split.
  - unfold seq. destruct (is_save fc) eqn:Hsave.
    + destruct (Hargs fc) as [args Hfc]; [apply elem_of_cons; auto | assumption |].
      rewrite (handle_function_call_save _ _ args) by assumption.
      edestruct IH as [s' [Hrun [Hsaved Hsent]]];
        [intros fc' Hin; apply Hargs, elem_of_cons; auto|].
      exists s'. split; [exact Hrun|].
      rewrite Hsaved, Hsent. updates. cbn [map]. unfold fc_info at 2. rewrite Hfc.
      now rewrite <- !app_assoc.
    + rewrite handle_function_call_other by assumption.
      apply IH. intros fc' Hin. apply Hargs, elem_of_cons; auto.
Qed.

(** C7: a tool-call event with K [save_important_info] calls, each with
    its arguments: [onSaveMemory] is called K times, once per call with
    that call's [info], and one tool response is sent per call, with
    that call's id and name and the fixed acknowledgement, both in the
    order of the calls in the event; calls of another name get
    nothing. *)
Theorem tool_calls_answered (session : nat) (message : LiveServerMessage)
    (now : number) (s : System) (calls : list FunctionCall) :
  toolCall message = Some calls ->
  (forall fc, fc ∈ calls -> is_save fc = true -> is_Some (fc_args fc)) ->
  let s' := settle (onmessage session message now s) in
  let K := List.length (List.filter is_save calls) in
  saved s' = saved s ++ map fc_info (List.filter is_save calls)
  /\ sent s' = sent s ++ map (response_to session) (List.filter is_save calls)
  /\ List.length (saved s') = List.length (saved s) + K
  /\ List.length (sent s') = List.length (sent s) + K.
Proof.
  intros Hcalls Hargs s' K.
  assert (H : saved s' = saved s ++ map fc_info (List.filter is_save calls)
              /\ sent s' = sent s ++ map (response_to session) (List.filter is_save calls)).
  { subst s'. unfold onmessage, handle_toolCall. rewrite Hcalls.
    destruct (function_calls_answered session calls s Hargs) as [s1 [Hrun [Hsaved Hsent]]].
    assert (Hrest : keeps_logs (fun s0 =>
              (ret >> handle_transcriptions message >> handle_audio message now
                   >> handle_interrupted message) s0)).
    { repeat apply keeps_logs_seq;
        auto using keeps_logs_ret, keeps_logs_transcriptions, keeps_logs_audio,
                   keeps_logs_interrupted. }
    specialize (Hrest s1). unfold seq, ret in Hrest |- *.
    rewrite Hrun. destruct Hrest as [H1 H2]. split; congruence. }
  destruct H as [Hsaved Hsent]. repeat split; try assumption.
  - rewrite Hsaved, length_app, length_map. reflexivity.
  - rewrite Hsent, length_app, length_map. reflexivity.
Qed.

(** An event with two calls of the tool and one of another name. *)
Lemma tool_calls_answered_witness :
  let call id name txt :=
    {| fc_id := id; fc_name := name; fc_args := Some {| info := Some txt |} |} in
  let calls := [call "a" "save_important_info" "likes tea";
                call "b" "other_tool" "x";
                call "c" "save_important_info" "born in May"] in
  let message := {| toolCall := Some calls; serverContent := None |} in
  let s' := settle (onmessage 0 message zero init) in
  saved s' = [Some "likes tea"; Some "born in May"]
  /\ sent s' = [(0, ToolResponse "a" "save_important_info" acknowledgement);
                (0, ToolResponse "c" "save_important_info" acknowledgement)]
  /\ List.length (saved s') = 2
  /\ List.length (sent s') = 2.
Proof.
  intros call calls message.
  apply (tool_calls_answered 0 message zero init calls).
  - reflexivity.
  - intros fc Hfc _. unfold calls in Hfc.
    repeat (apply elem_of_cons in Hfc as [-> | Hfc]; [now eexists|]).
    inversion Hfc.
Defined.

(** *** Which handlers create source nodes *)

Lemma creates_seq (a b : nat) (p q : Proc) :
  creates_at_most a p -> creates_at_most b q -> creates_at_most (a + b) (p >> q).
Proof.
  intros Hp Hq s. unfold seq. specialize (Hp s).
  destruct (p s) as [s1|s1]; cbn in *; [|lia].
  specialize (Hq s1). lia.
Qed.

Lemma creates_none (p : Proc) :
  (forall s, nodes (world (settle (p s))) = nodes (world s)) -> creates_at_most 0 p.
Proof. intros H s. now rewrite H. Qed.

Lemma creates_function_call (session : nat) (fc : FunctionCall) :
  creates_at_most 0 (handle_function_call session fc).
Proof.
  apply creates_none. intros s. unfold handle_function_call.
  destruct (String.eqb _ _); [|reflexivity].
  destruct (fc_args fc); reflexivity.
Qed.

Lemma creates_for_each {A : Type} (l : list A) (body : A -> Proc) :
  (forall x, creates_at_most 0 (body x)) -> creates_at_most 0 (for_each l body).
Proof.
  intros Hb. induction l as [|x l IH]; cbn [for_each].
  - now apply creates_none.
  - now apply (creates_seq 0 0).
Qed.

Lemma creates_toolCall (session : nat) (message : LiveServerMessage) :
  creates_at_most 0 (handle_toolCall session message).
Proof.
  unfold handle_toolCall. destruct (toolCall message).
  - apply creates_for_each, creates_function_call.
  - now apply creates_none.
Qed.

Lemma creates_transcriptions (message : LiveServerMessage) :
  creates_at_most 0 (handle_transcriptions message).
Proof.
  apply creates_none. intros s. unfold handle_transcriptions, set_caption, seq, lift, ret.
  destruct (serverContent message) as [sc|]; [|reflexivity].
  destruct (inputTranscription sc) as [ti|], (outputTranscription sc) as [to|];
    repeat match goal with
           | |- context [truthy ?t] => destruct (truthy t)
           end; reflexivity.
Qed.

Lemma resume_if_suspended_returns (ctx : nat) (s : System) :
  exists s1, resume_if_suspended ctx s = Returned s1
    /\ view s1 = view s /\ nodes (world s1) = nodes (world s)
    /\ sent s1 = sent s /\ saved s1 = saved s /\ tasks s1 = tasks s.
Proof.
  unfold resume_if_suspended, context_resume.
  destruct (context_state s ctx) eqn:Hc; cbn [is_closed]; eexists;
    (split; [reflexivity|]); now repeat split.
Qed.

Lemma creates_audio (message : LiveServerMessage) (now : number) :
  creates_at_most 1 (handle_audio message now).
Proof.
  intros s. unfold handle_audio.
  destruct (truthy (base64Audio message)); [|cbn; lia].
  destruct (outputAudioContextRef (view s)) as [ctx|]; [|cbn; lia].
  unfold seq. destruct (resume_if_suspended_returns ctx s) as [s1 [-> [_ [Hn _]]]].
  destruct (decode_chunk _); cbn; updates; rewrite ?length_app, Hn; cbn; lia.
Qed.

Lemma creates_interrupted (message : LiveServerMessage) :
  creates_at_most 0 (handle_interrupted message).
Proof.
  intros s. unfold handle_interrupted, interruption, seq, lift, ret.
  destruct (serverContent message) as [sc|]; [|cbn; lia].
  destruct (interrupted sc); [|cbn; lia].
  rewrite stop_sources_eq. cbn. updates. now rewrite stop_all_length.
Qed.

(** One message creates at most one source node. *)
Lemma creates_onmessage (session : nat) (message : LiveServerMessage) (now : number) :
  creates_at_most 1 (onmessage session message now).
Proof.
  unfold onmessage.
  apply (creates_seq 1 0); [|apply creates_interrupted].
  apply (creates_seq 0 1); [|apply creates_audio].
  apply (creates_seq 0 0); [apply creates_toolCall | apply creates_transcriptions].
Qed.

Lemma find_first_audio (pre rest : list Part) (p : Part) (blob : Blob) :
  List.Forall (fun q => inlineData q = None) pre ->
  inlineData p = Some blob ->
  List.find (fun q => bool_decide (is_Some (inlineData q))) (pre ++ p :: rest) = Some p.
Proof.
  intros Hpre Hp. induction Hpre as [|q pre Hq _ IH]; cbn [app List.find].
  - rewrite Hp. reflexivity.
  - rewrite Hq. cbn. exact IH.
Qed.

(** *** Scheduling *)

Lemma decode_chunk_truthy (base64 : string) (buffer : AudioBuffer) :
  decode_chunk base64 = Some buffer -> truthy (Some base64) = true.
Proof.
  destruct base64 as [|c base64]; [|reflexivity].
  vm_compute. discriminate.
Qed.

Lemma base64Audio_chunk (base64 : string) :
  base64Audio (chunk_message base64) = Some base64.
Proof. reflexivity. Qed.

(** The handler on the event of one chunk: the output context is resumed
    if need be, the chunk is scheduled. *)
Lemma onmessage_chunk (session ctx : nat) (s : System) (base64 : string)
    (buffer : AudioBuffer) (now : number) :
  outputAudioContextRef (view s) = Some ctx ->
  decode_chunk base64 = Some buffer ->
  exists s0, view s0 = view s /\ nodes (world s0) = nodes (world s)
    /\ onmessage session (chunk_message base64) now s = Returned (schedule now buffer s0).
Proof.
  intros Hctx Hdec.
  destruct (resume_if_suspended_returns ctx s) as [s0 [Hres [Hv [Hn _]]]].
  exists s0. split; [exact Hv|]. split; [exact Hn|].
  unfold onmessage, handle_audio. rewrite base64Audio_chunk.
  rewrite (decode_chunk_truthy base64 buffer Hdec).
  change (default "" (Some base64)) with base64. rewrite Hdec.
  unfold seq. cbn [chunk_message turn_message handle_toolCall toolCall ret
                   handle_transcriptions serverContent set_caption
                   inputTranscription outputTranscription].
  change ((ret >> ret) s) with (Returned s). cbv iota beta.
  rewrite Hctx, Hres. reflexivity.
Qed.

Lemma schedule_nodes (now : number) (buffer : AudioBuffer) (s : System) :
  nodes (world (schedule now buffer s))
  = nodes (world s)
    ++ [started_node buffer (Math_max (nextStartTimeRef (view s)) now)].
Proof. reflexivity. Qed.

Lemma schedule_next (now : number) (buffer : AudioBuffer) (s : System) :
  nextStartTimeRef (view (schedule now buffer s))
  = add (Math_max (nextStartTimeRef (view s)) now) (ab_duration buffer).
Proof. reflexivity. Qed.

Lemma schedule_context (now : number) (buffer : AudioBuffer) (s : System) :
  outputAudioContextRef (view (schedule now buffer s)) = outputAudioContextRef (view s).
Proof. reflexivity. Qed.

(** The duration of a decoded chunk is a number that is not negative. *)
Lemma duration_nonneg (base64 : string) (buffer : AudioBuffer) :
  decode_chunk base64 = Some buffer -> is_nonneg (ab_duration buffer) = true.
Proof.
  unfold decode_chunk, decodeAudioData.
  destruct (Base64.decodeBase64 base64) as [bytes|]; [|discriminate].
  destruct (Int16Array_of bytes) as [[|v l]|]; try discriminate.
  intros [= <-]. unfold ab_duration, ab_length. cbn [ab_sampleRate ab_channel].
  change (of_Z 24000) with (S754_finite false 6597069766656000 (-38)).
  apply div_nonneg, of_Z_nonneg. lia.
Qed.

(** C5: two chunks handled one after the other, no interruption between
    them.  Each is started at [Math.max(nextStartTimeRef, now)] and
    [nextStartTimeRef] then advances by the duration of its buffer; so
    the second starts no earlier than the start of the first plus the
    duration of the first (the sum as JavaScript computes it), the
    clock readings and the initial [nextStartTimeRef] being numbers
    that are not negative. *)
Theorem chunks_back_to_back (session ctx : nat) (s : System) (b1 b2 : string)
    (buf1 buf2 : AudioBuffer) (now1 now2 : number) :
  outputAudioContextRef (view s) = Some ctx ->
  decode_chunk b1 = Some buf1 ->
  decode_chunk b2 = Some buf2 ->
  let start1 := Math_max (nextStartTimeRef (view s)) now1 in
  let start2 := Math_max (add start1 (ab_duration buf1)) now2 in
  exists s1 s2,
    onmessage session (chunk_message b1) now1 s = Returned s1
    /\ onmessage session (chunk_message b2) now2 s1 = Returned s2
    /\ nodes (world s1) = nodes (world s) ++ [started_node buf1 start1]
    /\ nextStartTimeRef (view s1) = add start1 (ab_duration buf1)
    /\ nodes (world s2)
       = nodes (world s) ++ [started_node buf1 start1; started_node buf2 start2]
    /\ nextStartTimeRef (view s2) = add start2 (ab_duration buf2)
    /\ (is_nonneg (nextStartTimeRef (view s)) = true ->
        is_nonneg now1 = true -> is_nonneg now2 = true ->
        leb (add start1 (ab_duration buf1)) start2 = true).
Proof.
  intros Hctx Hd1 Hd2 start1 start2.
  destruct (onmessage_chunk session ctx s b1 buf1 now1 Hctx Hd1)
    as [s0 [Hv0 [Hn0 Hrun1]]].
  set (s1 := schedule now1 buf1 s0) in *.
  assert (Hctx1 : outputAudioContextRef (view s1) = Some ctx).
  { unfold s1. now rewrite schedule_context, Hv0. }
  destruct (onmessage_chunk session ctx s1 b2 buf2 now2 Hctx1 Hd2)
    as [s0' [Hv1 [Hn1 Hrun2]]].
  exists s1, (schedule now2 buf2 s0').
  assert (Hnext1 : nextStartTimeRef (view s1) = add start1 (ab_duration buf1)).
  { unfold s1. now rewrite schedule_next, Hv0. }
  assert (Hnodes1 : nodes (world s1) = nodes (world s) ++ [started_node buf1 start1]).
  { unfold s1. now rewrite schedule_nodes, Hv0, Hn0. }
  repeat split; try assumption.
  - rewrite schedule_nodes, Hv1, Hn1, Hnodes1, Hnext1, <- app_assoc. reflexivity.
  - now rewrite schedule_next, Hv1, Hnext1.
  - intros Hnext Hnow1 Hnow2.
    apply Math_max_ge_l; apply nonneg_not_nan; [|assumption].
    apply add_nonneg; [now apply Math_max_nonneg | eapply duration_nonneg; eauto].
Qed.

(** The scenario of the specification: a chunk of 0.5 s (12000 frames)
    at time 0, then one of 0.3 s (7200 frames) at time 0.1; they start
    at 0 and at 0.5 and [nextStartTimeRef] ends at 0.8. *)
Lemma chunks_back_to_back_witness :
  let tenth := div (of_Z 1) (of_Z 10) in
  let half := div (of_Z 1) (of_Z 2) in
  exists s1 s2,
    onmessage 0 (chunk_message (silence 12000)) zero connected = Returned s1
    /\ onmessage 0 (chunk_message (silence 7200)) tenth s1 = Returned s2
    /\ nodes (world s2)
       = [started_node (silent_buffer 12000) zero;
          started_node (silent_buffer 7200) half]
    /\ nextStartTimeRef (view s2) = div (of_Z 8) (of_Z 10)
    /\ leb (add zero half) half = true.
Proof.
  intros tenth half.
  destruct (chunks_back_to_back 0 1 connected (silence 12000) (silence 7200)
              (silent_buffer 12000) (silent_buffer 7200) zero tenth)
    as [s1 [s2 [H1 [H2 [_ [_ [Hnodes [Hnext Hle]]]]]]]].
  - reflexivity.
  - vm_compute. reflexivity.
  - vm_compute. reflexivity.
  - exists s1, s2. split; [exact H1|]. split; [exact H2|].
    split; [|split].
    + rewrite Hnodes. vm_compute. reflexivity.
    + rewrite Hnext. vm_compute. reflexivity.
    + vm_compute. reflexivity.
Defined.
(** *** The audio part of a message *)

(** A tool call leaves the view and the world alone. *)
Lemma function_call_frame (session : nat) (fc : FunctionCall) (s : System) :
  view (settle (handle_function_call session fc s)) = view s
  /\ world (settle (handle_function_call session fc s)) = world s.
Proof.
  unfold handle_function_call.
  destruct (String.eqb (fc_name fc) "save_important_info"); [|now split].
  destruct (fc_args fc); now split.
Qed.

Lemma function_calls_frame (session : nat) (calls : list FunctionCall) :
  forall s,
    view (settle (for_each calls (handle_function_call session) s)) = view s
    /\ world (settle (for_each calls (handle_function_call session) s)) = world s.
Proof.
  induction calls as [|fc calls IH]; intros s; cbn [for_each]; [now split|].
  unfold seq. pose proof (function_call_frame session fc s) as [Hv Hw].
  destruct (handle_function_call session fc s) as [s1|s1]; cbn in Hv, Hw.
  - destruct (IH s1). split; congruence.
  - now split.
Qed.

(** The tool calls of a message, each call of the tool with its
    arguments, return and leave the view and the world alone. *)
Lemma toolCall_returns (session : nat) (message : LiveServerMessage) (s : System) :
  (forall fcs fc, toolCall message = Some fcs -> fc ∈ fcs -> is_save fc = true ->
                  is_Some (fc_args fc)) ->
  exists s1, handle_toolCall session message s = Returned s1
    /\ view s1 = view s /\ world s1 = world s.
Proof.
  intros Hargs. unfold handle_toolCall.
  destruct (toolCall message) as [fcs|]; [|now exists s].
  destruct (function_calls_answered session fcs s) as (s1 & Hrun & _);
    [intros fc; now apply Hargs|].
  exists s1. split; [exact Hrun|].
  pose proof (function_calls_frame session fcs s) as H. now rewrite Hrun in H.
Qed.

(** What the interruption of a message leaves of a source node. *)
Lemma interrupted_node (message : LiveServerMessage) (sc : ServerContent)
    (s : System) (i : nat) (n : SourceNode) (t : number) :
  serverContent message = Some sc ->
  nodes (world s) !! i = Some n -> node_when n = Some t -> node_stopped n = false ->
  i ∈ sourcesRef (view s) ->
  exists s' n', handle_interrupted message s = Returned s'
    /\ List.length (nodes (world s')) = List.length (nodes (world s))
    /\ nodes (world s') !! i = Some n'
    /\ node_buffer n' = node_buffer n /\ node_when n' = Some t
    /\ node_stopped n' = interrupted sc.
Proof.
  intros Hsc Hn Hw Hs Hi. unfold handle_interrupted. rewrite Hsc.
  destruct (interrupted sc).
  - unfold interruption, seq, lift. rewrite stop_sources_eq.
    assert (Hlt : i < List.length (stop_all (sourcesRef (view s)) (nodes (world s)))).
    { rewrite stop_all_length. eapply lookup_lt_Some; eauto. }
    apply lookup_lt_is_Some_2 in Hlt as [n' Hn'].
    eexists. exists n'. split; [reflexivity|]. cbn.
    split; [apply stop_all_length|]. split; [exact Hn'|].
    destruct (stop_all_keeps _ _ _ _ Hn') as (n0 & H0 & Hb & Hw0).
    assert (n0 = n) by congruence. subst n0.
    split; [exact Hb|]. split; [congruence|].
    pose proof (stop_all_stops _ _ _ _ Hi Hn') as Hq. unfold plays in Hq.
    rewrite Hw0, Hw in Hq. now destruct (node_stopped n').
  - exists s, n. unfold ret. repeat split; auto.
Qed.

Lemma Set_add_elem (x : nat) (l : list nat) : x ∈ Set_add x l.
Proof.
  unfold Set_add. destruct (bool_decide (x ∈ l)) eqn:H.
  - now apply bool_decide_eq_true in H.
  - apply elem_of_app. right. apply list_elem_of_here.
Qed.

(** A message whose payload decodes, handled while the output context
    is in its ref: one source node is created, with the decoded buffer,
    started at the later of [nextStartTimeRef] and [now], and stopped
    only if the message interrupts as well. *)
Lemma onmessage_schedules (session : nat) (message : LiveServerMessage)
    (sc : ServerContent) (now : number) (s : System) (ctx : nat) (base64 : string)
    (buffer : AudioBuffer) :
  (forall fcs fc, toolCall message = Some fcs -> fc ∈ fcs -> is_save fc = true ->
                  is_Some (fc_args fc)) ->
  serverContent message = Some sc ->
  base64Audio message = Some base64 ->
  outputAudioContextRef (view s) = Some ctx ->
  decode_chunk base64 = Some buffer ->
  exists s' node, onmessage session message now s = Returned s'
    /\ List.length (nodes (world s')) = S (List.length (nodes (world s)))
    /\ nodes (world s') !! List.length (nodes (world s)) = Some node
    /\ node_buffer node = buffer
    /\ node_when node = Some (Math_max (nextStartTimeRef (view s)) now)
    /\ node_stopped node = interrupted sc.
Proof.
  intros Hargs Hsc Hb Hctx Hdec.
  destruct (toolCall_returns session message s Hargs) as (s1 & Hrun1 & Hv1 & Hw1).
  destruct (captions_return message s1) as (s2 & Hrun2 & _ & Hw2 & Hn2 & Ho2).
  destruct (resume_if_suspended_returns ctx s2) as (s3 & Hrun3 & Hv3 & Hn3 & _).
  set (s4 := schedule now buffer s3).
  assert (Hrun4 : handle_audio message now s2 = Returned s4).
  { unfold handle_audio. rewrite Hb, (decode_chunk_truthy base64 buffer Hdec).
    rewrite Ho2, Hv1, Hctx. unfold seq. rewrite Hrun3.
    change (default "" (Some base64)) with base64. now rewrite Hdec. }
  assert (Hlen : List.length (nodes (world s3)) = List.length (nodes (world s)))
    by (rewrite Hn3; congruence).
  assert (Hstart : nextStartTimeRef (view s3) = nextStartTimeRef (view s))
    by congruence.
  destruct (interrupted_node message sc s4 (List.length (nodes (world s)))
              (started_node buffer (Math_max (nextStartTimeRef (view s)) now))
              (Math_max (nextStartTimeRef (view s)) now) Hsc)
    as (s' & node & Hrun5 & Hlen5 & Hnode & Hbuf & Hwhen & Hstop).
  { unfold s4. rewrite schedule_nodes, Hstart, <- Hlen. apply lookup_snoc. }
  { reflexivity. }
  { reflexivity. }
  { unfold s4, schedule. cbn. rewrite Hlen. apply Set_add_elem. }
  exists s', node. split.
  { unfold onmessage. repeat eapply seq_returned; eauto. }
  split; [|now repeat split].
  rewrite Hlen5. unfold s4. rewrite schedule_nodes, length_app, Hlen. cbn. lia.
Qed.

(** A message whose payload is missing, empty or does not decode
    creates no source node. *)
Lemma onmessage_drops (session : nat) (message : LiveServerMessage) (now : number)
    (s : System) :
  truthy (base64Audio message) = false
  \/ decode_chunk (default "" (base64Audio message)) = None ->
  List.length (nodes (world (settle (onmessage session message now s))))
  <= List.length (nodes (world s)).
Proof.
  intros Hbad.
  assert (Haudio : creates_at_most 0 (handle_audio message now)).
  { intros s0. unfold handle_audio.
    destruct (truthy (base64Audio message)) eqn:Ht; [|cbn; lia].
    destruct Hbad as [Hbad | Hbad]; [discriminate|]. rewrite Hbad.
    destruct (outputAudioContextRef (view s0)) as [ctx|]; [|cbn; lia].
    unfold seq. destruct (resume_if_suspended_returns ctx s0) as (s1 & -> & _ & Hn & _).
    cbn. rewrite Hn. lia. }
  assert (H : creates_at_most 0 (onmessage session message now)).
  { unfold onmessage.
    apply (creates_seq 0 0); [|apply creates_interrupted].
    apply (creates_seq 0 0); [|exact Haudio].
    apply (creates_seq 0 0); [apply creates_toolCall | apply creates_transcriptions]. }
  exact (H s).
Qed.

(** C10: in a message whose model turn has several parts with inline
    data, [p] being the first of them: the payload the handler takes is
    that of [p]; the handler does exactly what it does on the message
    with [p] as its only part, so the parts after [p] are neither
    decoded nor scheduled; it creates at most one source node.  When
    the payload of [p] decodes (the output context being in its ref and
    each call of the tool in the message having its arguments), the
    handler returns having created exactly one source node: its buffer
    is the decoded payload of [p], it is started at the later of
    [nextStartTimeRef] and [now], and it is stopped only if the same
    message interrupts.  When the payload of [p] is missing, empty or
    does not decode, no source node is created, whatever the parts
    after [p] carry. *)
Theorem only_first_audio_part (session : nat) (now : number) (s : System)
    (calls : option (list FunctionCall)) (input output : option Transcription)
    (intr : bool) (pre rest : list Part) (p : Part) (blob : Blob) :
  List.Forall (fun q => inlineData q = None) pre ->
  inlineData p = Some blob ->
  let message := turn_message calls input output (pre ++ p :: rest) intr in
  base64Audio message = data blob
  /\ onmessage session message now s
     = onmessage session (turn_message calls input output [p] intr) now s
  /\ List.length (nodes (world (settle (onmessage session message now s))))
     <= S (List.length (nodes (world s)))
  /\ (forall ctx base64 buffer,
        (forall fcs fc, calls = Some fcs -> fc ∈ fcs -> is_save fc = true ->
                        is_Some (fc_args fc)) ->
        outputAudioContextRef (view s) = Some ctx ->
        data blob = Some base64 ->
        decode_chunk base64 = Some buffer ->
        exists s' node,
          onmessage session message now s = Returned s'
          /\ List.length (nodes (world s')) = S (List.length (nodes (world s)))
          /\ nodes (world s') !! List.length (nodes (world s)) = Some node
          /\ node_buffer node = buffer
          /\ node_when node = Some (Math_max (nextStartTimeRef (view s)) now)
          /\ node_stopped node = intr)
  /\ (truthy (data blob) = false \/ decode_chunk (default "" (data blob)) = None ->
      List.length (nodes (world (settle (onmessage session message now s))))
      <= List.length (nodes (world s))).
Proof.
  intros Hpre Hp message.
  assert (Hb : base64Audio message = data blob).
  { unfold base64Audio, audioPart, message, turn_message.
    cbn [serverContent modelTurn].
    rewrite (find_first_audio pre rest p blob Hpre Hp). now rewrite Hp. }
  assert (Hb1 : base64Audio (turn_message calls input output [p] intr) = data blob).
  { unfold base64Audio, audioPart, turn_message. cbn [serverContent modelTurn List.find].
    rewrite Hp. cbn. now rewrite Hp. }
  split; [exact Hb|]. split; [|split; [apply (creates_onmessage session message now s)|split]].
  - unfold onmessage, handle_audio. rewrite Hb, Hb1. reflexivity.
  - intros ctx base64 buffer Hargs Hctx Hdata Hdec.
    apply (onmessage_schedules session message
             {| inputTranscription := input; outputTranscription := output;
                modelTurn := Some (pre ++ p :: rest); interrupted := intr |}
             now s ctx base64 buffer); auto.
    congruence.
  - intros Hbad. apply onmessage_drops. now rewrite Hb.
Qed.

(** Two audio parts after a text part: the first one is scheduled, the
    second one is not. *)
Lemma only_first_audio_part_witness :
  let first := Base64.encodeBase64 [x01; x00; x02; x00]%byte in
  let second := Base64.encodeBase64 [x03; x00]%byte in
  let s := set_view (set_outputAudioContextRef (Some 0) init_view)
             (set_world (set_contexts [Running] init_world) init) in
  let message :=
    turn_message None None None
      ([{| inlineData := None; text := Some "hello" |}]
       ++ audio_part first :: [audio_part second]) false in
  base64Audio message = Some first
  /\ onmessage 0 message zero s
     = onmessage 0 (turn_message None None None [audio_part first] false) zero s
  /\ exists s' node,
       onmessage 0 message zero s = Returned s'
       /\ List.length (nodes (world s')) = 1
       /\ nodes (world s') !! 0 = Some node
       /\ decode_chunk first = Some (node_buffer node)
       /\ List.length (ab_channel (node_buffer node)) = 2
       /\ node_when node = Some zero
       /\ node_stopped node = false.
Proof.
  intros first second s message.
  destruct (only_first_audio_part 0 zero s None None None false
              [{| inlineData := None; text := Some "hello" |}] [audio_part second]
              (audio_part first)
              {| data := Some first; mimeType := Some "audio/pcm;rate=24000" |})
    as (H1 & H2 & _ & H4 & _).
  - repeat constructor.
  - reflexivity.
  - split; [exact H1|]. split; [exact H2|].
    destruct (decode_chunk first) as [buffer|] eqn:Hdec; [|vm_compute in Hdec; discriminate].
    destruct (H4 0 first buffer) as (s' & node & Hrun & Hlen & Hnode & Hbuf & Hwhen & Hstop);
      [discriminate | reflexivity | reflexivity | exact Hdec |].
    exists s', node. rewrite Hbuf. repeat split; try assumption.
    vm_compute in Hdec. injection Hdec as <-. reflexivity.
Defined.

End MessageClaims.

Section StartFacts.
Import Num Live.

Variable API_KEY : option string.

(** *** The stretches of [startSession] *)

Lemma mic_granted_eq (k : nat) (muted : bool) (s : System) :
  tasks s !! k = Some (AwaitMic muted) ->
  mic_granted k s
  = {| view := set_micStreamRef (Some (List.length (mics (world s)))) (view s);
       world := set_contexts (contexts (world s) ++ [Suspended; Suspended])
                  (set_mics (mics (world s) ++ [TrackLive]) (world s));
       tasks := <[k := AwaitResumeIn muted (List.length (mics (world s)))
                         (List.length (contexts (world s)))
                         (S (List.length (contexts (world s))))]> (tasks s);
       sent := sent s; saved := saved s |}.
Proof. intros H. unfold mic_granted. rewrite H. reflexivity. Qed.

Lemma resumed_in_eq (k : nat) (muted : bool) (stream ic oc : nat) (s : System) :
  tasks s !! k = Some (AwaitResumeIn muted stream ic oc) ->
  is_closed (context_state s ic) = false ->
  resumed_in k s
  = {| view := view s;
       world := set_contexts (<[ic := Running]> (contexts (world s))) (world s);
       tasks := <[k := AwaitResumeOut muted stream ic oc]> (tasks s);
       sent := sent s; saved := saved s |}.
Proof.
  intros H Hc. unfold resumed_in, context_resume. rewrite H, Hc. reflexivity.
Qed.

Lemma resumed_out_eq (k : nat) (muted : bool) (stream ic oc : nat) (s : System) :
  tasks s !! k = Some (AwaitResumeOut muted stream ic oc) ->
  is_closed (context_state s oc) = false ->
  resumed_out k s
  = {| view := set_outputAudioContextRef (Some oc)
                 (set_audioContextRef (Some ic) (view s));
       world := set_sockets (sockets (world s) ++ [Connecting])
                  (set_contexts (<[oc := Running]> (contexts (world s))) (world s));
       tasks := <[k := AwaitHandshake muted stream ic oc
                         (List.length (sockets (world s)))]> (tasks s);
       sent := sent s; saved := saved s |}.
Proof.
  intros H Hc. unfold resumed_out, context_resume. rewrite H, Hc. reflexivity.
Qed.

Lemma handshake_open_eq (k : nat) (muted : bool) (stream ic oc session : nat)
    (s : System) :
  tasks s !! k = Some (AwaitHandshake muted stream ic oc session) ->
  handshake_open k s
  = {| view := set_sessionRef (Some session)
                 (set_isValidating false (set_isActive true (view s)));
       world := set_sockets (<[session := Open]> (sockets (world s))) (world s);
       tasks := <[k := Connected muted stream ic oc session]> (tasks s);
       sent := sent s; saved := saved s |}.
Proof. intros H. unfold handshake_open. rewrite H. reflexivity. Qed.

End StartFacts.
Section StartClaims.
Import Num Live.

Lemma lookup_snoc2 {A : Type} (l : list A) (x y : A) :
  (l ++ [x; y]) !! List.length l = Some x
  /\ (l ++ [x; y]) !! S (List.length l) = Some y.
Proof.
  split.
  - now rewrite list_lookup_middle.
  - change (l ++ [x; y]) with (l ++ [x] ++ [y]). rewrite app_assoc.
    rewrite list_lookup_middle; [reflexivity|].
    rewrite length_app. cbn. lia.
Qed.









(** C3: the capture callback tests the [isMuted] its closure has bound
    when [startSession] was called, not the current one.  Started
    unmuted, then muted: a frame captured while [isMuted] is true is
    sent.  Started muted, then unmuted: a frame captured while
    [isMuted] is false is not sent. *)
Theorem mute_is_read_at_start :
  let frame := [div (of_Z 1) (of_Z 2)] in
  let start := [Start; MicGranted 0; ResumedIn 0; ResumedOut 0; HandshakeOpen 0] in
  let s1 := run (Some "key") (start ++ [ToggleMute; AudioProcess 0 frame]) init in
  let s2 := run (Some "key") ([ToggleMute] ++ start ++ [ToggleMute; AudioProcess 0 frame]) init in
  (isMuted (view s1) = true
   /\ sent s1 = [(0, RealtimeInput "AEA=" "audio/pcm;rate=16000")])
  /\ (isMuted (view s2) = false /\ sent s2 = []).
Proof. vm_compute. auto. Qed.
End StartClaims.

Section SingleSessionClaim.
Import Num Live.

(** C2: the guard of the single session is the large button, which is
    disabled while [isValidating] (a click is a no-op) and calls
    [stopSession], not [startSession], while [isActive].  It is
    bypassed, with clicks on that button only and no handshake that
    fails: a session is started and stopped, the stop settles, and the
    button is clicked again, so a second start is in flight and the
    button is disabled; the close event of the first session, which
    follows the [session.close()] of the stop, then arrives, [onclose]
    calls [stopSession], and that clears [isValidating]; the button is
    enabled while the second start is still in flight, a click starts a
    third, and once both handshakes have resolved two microphone
    tracks, four audio contexts and two remote sessions are live. *)
Theorem late_close_reenables_start :
  let key := Some "key" in
  let first := [ClickMain; MicGranted 0; ResumedIn 0; ResumedOut 0; HandshakeOpen 0] in
  let stop_and_start := [ClickMain; ContextClosed 1; ContextClosed 1; ClickMain] in
  let both := [ClickMain; MicGranted 2; ResumedIn 2; ResumedOut 2; HandshakeOpen 2;
               MicGranted 3; ResumedIn 3; ResumedOut 3; HandshakeOpen 3] in
  let s1 := run key (first ++ stop_and_start) init in
  let s2 := step key (SessionClose 0) s1 in
  let s3 := run key both s2 in
  (forall s, isValidating (view s) = true -> step key ClickMain s = s)
  /\ (forall s, isValidating (view s) = false -> isActive (view s) = true ->
                step key ClickMain s = settle (stopSession s))
  /\ forallb through_main_button (first ++ stop_and_start ++ [SessionClose 0] ++ both) = true
  /\ s3 = run key (first ++ stop_and_start ++ [SessionClose 0] ++ both) init
  /\ tasks s1 = [Connected false 0 0 1 0; Finished; AwaitMic false]
  /\ sockets (world s1) = [Closing]
  /\ isValidating (view s1) = true
  /\ tasks s2 = [Connected false 0 0 1 0; Finished; AwaitMic false]
  /\ sockets (world s2) = [SocketClosed]
  /\ isValidating (view s2) = false
  /\ isActive (view s2) = false
  /\ tasks s3 = [Connected false 0 0 1 0; Finished; Connected false 1 2 3 1;
                 Connected false 2 4 5 2]
  /\ live_tracks (world s3) = 2
  /\ open_contexts (world s3) = 4
  /\ open_sessions (world s3) = 2.
Proof.
  intros key first stop_and_start both s1 s2 s3.
  split; [intros s Hv; cbn; unfold click_main; now rewrite Hv|].
  split; [intros s Hv Ha; cbn; unfold click_main; now rewrite Hv, Ha|].
  vm_compute. repeat split.
Qed.
End SingleSessionClaim.
(** ** More about [callWithRetry] *)

Section RetryBounds.
Import Retry.

Section Shape.
Context {A : Type}.
Variable fn : Z -> A + JsError.
Variables maxRetries initialDelay : Z.

(** The loop with fuel for all its iterations, whatever [fn] does: it
    calls [fn] at most once per iteration, its waits are the doubling
    schedule from [i], one before each call but the first. *)
Lemma loop_shape (fuel : nat) :
  forall (i : Z) (last : option JsError),
    (maxRetries + 1 - i <= Z.of_nat fuel)%Z ->
    let r := loop fn maxRetries initialDelay fuel i last in
    (Z.of_nat (attempts r) <= Z.max 0 (maxRetries + 1 - i))%Z
    /\ delays r = backoff initialDelay i (List.length (delays r))
    /\ (attempts r = 0 /\ delays r = [] \/ attempts r = S (List.length (delays r))).
Proof.
  induction fuel as [|fuel IH]; intros i last Hfuel; cbn [loop].
  - cbn. repeat split; auto. lia.
  - destruct (i <=? maxRetries)%Z eqn:Hle; [|cbn; repeat split; auto; lia].
    apply Z.leb_le in Hle.
    destruct (fn i) as [v|error]; [cbn; repeat split; auto; lia|].
    destruct (isAuth _); [cbn; repeat split; auto; lia|].
    destruct (isNotFound _); [cbn; repeat split; auto; lia|].
    destruct (isQuota _); cbn [andb]; [|cbn; repeat split; auto; lia].
    destruct (i <? maxRetries)%Z eqn:Hlt; [|cbn; repeat split; auto; lia].
    apply Z.ltb_lt in Hlt.
    destruct (IH (i + 1)%Z (Some error)) as (H1 & H2 & H3); [lia|].
    cbv zeta. cbn [attempts delays List.length backoff]. repeat split.
    + lia.
    + now rewrite <- H2.
    + right. destruct H3 as [[H3 _] | H3]; [|now rewrite H3].
      exfalso. revert H3. clear - Hlt Hfuel.
      destruct fuel as [|fuel]; [lia|]. cbn [loop].
      replace (i + 1 <=? maxRetries)%Z with true by (symmetry; apply Z.leb_le; lia).
      destruct (fn (i + 1)%Z) as [v|e]; [discriminate|].
      destruct (isAuth _); [discriminate|].
      destruct (isNotFound _); [discriminate|].
      destruct (isQuota _ && _); [discriminate|].
      destruct (isQuota _); discriminate.
Qed.

(** A loop that resolves has the value of its last call, and every call
    before it failed with a quota message. *)
Lemma loop_resolved (fuel : nat) :
  forall (i : Z) (last : option JsError) (v : A),
    result (loop fn maxRetries initialDelay fuel i last) = Resolved v ->
    exists n, attempts (loop fn maxRetries initialDelay fuel i last) = S n
      /\ fn (i + Z.of_nat n)%Z = inl v
      /\ forall j, j < n -> retryable (fn (i + Z.of_nat j)%Z) = true.
Proof.
  induction fuel as [|fuel IH]; intros i last v; cbn [loop]; [discriminate|].
  destruct (i <=? maxRetries)%Z; [|discriminate].
  destruct (fn i) as [v0|error] eqn:Hfn.
  - intros [= ->]. exists 0. rewrite Z.add_0_r. repeat split; auto. lia.
  - fold (msg_of error).
    destruct (isAuth (msg_of error)) eqn:Ha; [discriminate|].
    destruct (isNotFound (msg_of error)) eqn:Hn; [discriminate|].
    destruct (isQuota (msg_of error)) eqn:Hq; cbn [andb]; [|discriminate].
    destruct (i <? maxRetries)%Z; [|discriminate].
    cbn [result attempts]. intros Hres.
    destruct (IH (i + 1)%Z (Some error) v Hres) as (n & Hn1 & Hn2 & Hn3).
    exists (S n). split; [now rewrite Hn1|]. split.
    + rewrite <- Hn2. f_equal. lia.
    + intros [|j] Hj.
      * rewrite Z.add_0_r, Hfn. unfold retryable. now rewrite Ha, Hn, Hq.
      * replace (i + Z.of_nat (S j))%Z with (i + 1 + Z.of_nat j)%Z by lia.
        apply Hn3. lia.
Qed.
End Shape.

Lemma total_wait_backoff (d : Z) (n : nat) :
  forall i, (0 <= i)%Z ->
    total_wait (backoff d i n) = (d * 2 ^ i * (2 ^ Z.of_nat n - 1))%Z.
Proof.
  induction n as [|n IH]; intros i Hi; cbn [backoff total_wait fold_right].
  - cbn. lia.
  - fold (total_wait (backoff d (i + 1) n)). rewrite IH by lia.
    rewrite Nat2Z.inj_succ, !Z.pow_succ_r, Z.pow_add_r by lia. lia.
Qed.

(** [callWithRetry], whatever [fn] does and whatever the key: it calls
    [fn] at most [maxRetries + 1] times (never, when that is not
    positive), the waits it makes are [initialDelay], twice that, four
    times that, ..., and there is one wait before each call but the
    first. *)
Theorem callWithRetry_bounded {A : Type} (fn : Z -> A + JsError)
    (maxRetries initialDelay : Z) (API_KEY : option string) :
  let r := callWithRetry fn maxRetries initialDelay API_KEY in
  (Z.of_nat (attempts r) <= Z.max 0 (maxRetries + 1))%Z
  /\ delays r = backoff initialDelay 0 (List.length (delays r))
  /\ (attempts r = 0 /\ delays r = [] \/ attempts r = S (List.length (delays r))).
Proof.
  unfold callWithRetry. destruct (validateApiKey API_KEY).
  - cbn. repeat split; auto. lia.
  - pose proof (loop_shape fn maxRetries initialDelay
                  (Z.to_nat (maxRetries + 1)) 0%Z None) as H.
    rewrite Z.sub_0_r in H. apply H. lia.
Qed.

(** When [callWithRetry] resolves, its value is what the last call of
    [fn] returned, and every call before that one failed with a quota
    message that is neither an auth nor a not-found message. *)
Theorem callWithRetry_resolved {A : Type} (fn : Z -> A + JsError)
    (maxRetries initialDelay : Z) (API_KEY : option string) (v : A) :
  result (callWithRetry fn maxRetries initialDelay API_KEY) = Resolved v ->
  exists n, attempts (callWithRetry fn maxRetries initialDelay API_KEY) = S n
    /\ fn (Z.of_nat n) = inl v
    /\ forall j, j < n -> retryable (fn (Z.of_nat j)) = true.
Proof.
  unfold callWithRetry. destruct (validateApiKey API_KEY); [discriminate|].
  intros H. exact (loop_resolved fn maxRetries initialDelay _ 0%Z None v H).
Qed.

Lemma callWithRetry_resolved_witness :
  let fn := fun i : Z => if (i <? 2)%Z then inr (Error "429") else inl i in
  exists n, attempts (callWithRetry fn 2 2000 (Some "AIza")) = S n
    /\ fn (Z.of_nat n) = inl 2%Z
    /\ forall j, j < n -> retryable (fn (Z.of_nat j)) = true.
Proof.
  intros fn. apply (callWithRetry_resolved fn 2 2000 (Some "AIza") 2%Z).
  reflexivity.
Defined.

(** The time [callWithRetry] waits in all is
    [initialDelay * (2^k - 1)] for its [k] waits, so at most
    [initialDelay * (2^maxRetries - 1)]: 6000 ms with the defaults. *)
Theorem callWithRetry_total_wait {A : Type} (fn : Z -> A + JsError)
    (maxRetries initialDelay : Z) (API_KEY : option string) :
  (0 <= initialDelay)%Z ->
  let r := callWithRetry fn maxRetries initialDelay API_KEY in
  total_wait (delays r)
  = (initialDelay * (2 ^ Z.of_nat (List.length (delays r)) - 1))%Z
  /\ (total_wait (delays r) <= initialDelay * (2 ^ Z.max 0 maxRetries - 1))%Z.
Proof.
  intros Hd r.
  assert (Hshape : (Z.of_nat (attempts r) <= Z.max 0 (maxRetries + 1))%Z
                   /\ delays r = backoff initialDelay 0 (List.length (delays r))
                   /\ (attempts r = 0 /\ delays r = []
                       \/ attempts r = S (List.length (delays r)))).
  { unfold r, callWithRetry. destruct (validateApiKey API_KEY).
    - cbn. repeat split; auto. lia.
    - pose proof (loop_shape fn maxRetries initialDelay
                    (Z.to_nat (maxRetries + 1)) 0%Z None) as H.
      rewrite Z.sub_0_r in H. apply H. lia. }
  destruct Hshape as (Hatt & Hdel & Hone).
  assert (Heq : total_wait (delays r)
                = (initialDelay * (2 ^ Z.of_nat (List.length (delays r)) - 1))%Z).
  { rewrite Hdel at 1. rewrite total_wait_backoff by lia. cbn. lia. }
  split; [exact Heq|]. rewrite Heq.
  apply Z.mul_le_mono_nonneg_l; [assumption|].
  assert (Hlen : (Z.of_nat (List.length (delays r)) <= Z.max 0 maxRetries)%Z).
  { destruct Hone as [[_ ->] | Hone]; [cbn; lia | lia]. }
  assert (2 ^ Z.of_nat (List.length (delays r)) <= 2 ^ Z.max 0 maxRetries)%Z
    by (apply Z.pow_le_mono_r; lia).
  lia.
Qed.

Lemma callWithRetry_total_wait_witness :
  let r := callWithRetry (A := unit) (fun _ => inr (Error "quota")) 2 2000 (Some "AIza") in
  total_wait (delays r) = (2000 * (2 ^ Z.of_nat (List.length (delays r)) - 1))%Z
  /\ (total_wait (delays r) <= 2000 * (2 ^ Z.max 0 2 - 1))%Z.
Proof.
  intros r.
  apply (callWithRetry_total_wait (A := unit) (fun _ => inr (Error "quota")) 2 2000
           (Some "AIza")).
  lia.
Defined.

(** With no key, an empty key or a key that starts with [sk-],
    [callWithRetry] rejects with the reason of [validateApiKey] and
    never calls [fn]; every other key is accepted. *)
Theorem callWithRetry_refused_key {A : Type} (fn : Z -> A + JsError)
    (maxRetries initialDelay : Z) (API_KEY : option string) :
  (API_KEY = None \/ API_KEY = Some "" \/ exists rest, API_KEY = Some ("sk-" ++ rest)%string)
  <-> exists reason,
        callWithRetry fn maxRetries initialDelay API_KEY
        = {| result := Rejected (Some (Error reason)); delays := []; attempts := 0 |}
        /\ validateApiKey API_KEY = Some reason.
Proof.
  unfold callWithRetry. split.
  - intros [-> | [-> | [rest ->]]]; try (eexists; split; reflexivity).
    unfold validateApiKey.
    change ("sk-" ++ rest)%string with (String "s" (String "k" (String "-" rest))).
    cbn. destruct rest; eexists; split; reflexivity.
  - intros [reason [_ Hv]]. unfold validateApiKey in Hv.
    destruct API_KEY as [[|c k]|]; auto.
    destruct (String.prefix "sk-" (String c k)) eqn:Hp; [|discriminate].
    right. right.
    destruct c as [[] [] [] [] [] [] [] []]; try discriminate Hp.
    destruct k as [|c1 k]; [discriminate Hp|].
    destruct c1 as [[] [] [] [] [] [] [] []]; try discriminate Hp.
    destruct k as [|c2 k]; [discriminate Hp|].
    destruct c2 as [[] [] [] [] [] [] [] []]; try discriminate Hp.
    now exists k.
Qed.
End RetryBounds.

(** ** More about the audio payloads *)

Section AudioFacts.
Import Num Live.









End AudioFacts.

(** ** More about the voice session *)

Section LiveEdges.
Import Num Live.

Lemma for_each_app {A : Type} (l1 l2 : list A) (body : A -> Proc) (s : System) :
  for_each (l1 ++ l2) body s = (for_each l1 body >> for_each l2 body) s.
Proof.
  revert s. induction l1 as [|x l1 IH]; intros s; cbn [app for_each].
  - reflexivity.
  - unfold seq. destruct (body x s) as [s1|s1]; [|reflexivity].
    rewrite IH. reflexivity.
Qed.

(** A call of the tool that comes without arguments makes the handler
    throw at line 155: the calls before it are answered, the calls
    after it are not, and neither the captions, nor the audio, nor the
    interruption of the same message is handled. *)
Theorem call_without_args_throws (session : nat) (message : LiveServerMessage)
    (now : number) (s : System) (pre rest : list FunctionCall) (bad : FunctionCall) :
  toolCall message = Some (pre ++ bad :: rest) ->
  (forall fc, fc ∈ pre -> is_save fc = true -> is_Some (fc_args fc)) ->
  is_save bad = true ->
  fc_args bad = None ->
  exists s', onmessage session message now s = Threw s'
    /\ saved s' = saved s ++ map fc_info (List.filter is_save pre)
    /\ sent s' = sent s ++ map (response_to session) (List.filter is_save pre)
    /\ view s' = view s
    /\ world s' = world s.
Proof.
  intros Hcalls Hpre Hsave Hargs.
  destruct (function_calls_answered session pre s Hpre) as (s1 & Hrun & Hsaved & Hsent).
  pose proof (function_calls_frame session pre s) as Hframe. rewrite Hrun in Hframe.
  exists s1. split; [|now repeat split].
  unfold onmessage, handle_toolCall, seq. rewrite Hcalls, for_each_app.
  unfold seq. rewrite Hrun. cbn [for_each]. unfold seq, handle_function_call.
  unfold is_save in Hsave. now rewrite Hsave, Hargs.
Qed.

(** A call with its arguments, a call without, a third call; the
    message carries a caption and an interruption too. *)
Lemma call_without_args_throws_witness :
  let call id args := {| fc_id := id; fc_name := "save_important_info"; fc_args := args |} in
  let message :=
    turn_message
      (Some ([call "a" (Some {| info := Some "likes tea" |})]
             ++ call "b" None :: [call "c" (Some {| info := Some "x" |})]))
      (Some {| tr_text := Some "hello" |}) None [] true in
  exists s', onmessage 0 message zero two_pending = Threw s'
    /\ saved s' = saved two_pending ++ [Some "likes tea"]
    /\ sent s' = sent two_pending
                 ++ [(0, ToolResponse "a" "save_important_info" acknowledgement)]
    /\ view s' = view two_pending
    /\ world s' = world two_pending.
Proof.
  intros call message.
  apply (call_without_args_throws 0 message zero two_pending
           [call "a" (Some {| info := Some "likes tea" |})]
           [call "c" (Some {| info := Some "x" |})] (call "b" None)).
  - reflexivity.
  - intros fc Hfc _. apply list_elem_of_singleton in Hfc as ->. now eexists.
  - reflexivity.
  - reflexivity.
Defined.

Section NoKey.
Variable API_KEY : option string.
Hypothesis no_key : truthy API_KEY = false.

Lemma keyless_step (e : Event) (s : System) : keyless s -> keyless (step API_KEY e s).
Proof.
  unfold keyless.
  destruct s as [[ia im ae iv ui ao acr oacr sr nst srcs msr] w ts se sa].
  cbn. intros (-> & -> & -> & -> & -> & -> & -> & -> & -> & -> & ->).
  destruct e; cbn; unfold click_main, startSession; cbn; rewrite ?no_key; cbn;
    repeat split.
Qed.

Lemma keyless_run (trace : list Event) :
  forall s, keyless s -> keyless (run API_KEY trace s).
Proof.
  induction trace as [|e trace IH]; intros s Hs; cbn [run]; [exact Hs|].
  apply IH, keyless_step, Hs.
Qed.
End NoKey.

(** Without an API key no session ever starts, whatever the events: no
    task is in flight, no track, context, session or source node
    exists, nothing is sent or saved, the component is neither active
    nor validating, and a click on the large button leaves the message
    of line 89. *)
Theorem no_key_no_session (API_KEY : option string) (trace : list Event) :
  truthy API_KEY = false ->
  let s := run API_KEY trace init in
  tasks s = [] /\ world s = init_world /\ sent s = [] /\ saved s = []
  /\ isActive (view s) = false /\ isValidating (view s) = false
  /\ keyless (step API_KEY ClickMain s)
  /\ authError (view (step API_KEY ClickMain s)) = Some "No API key detected.".
Proof.
  intros Hkey s.
  assert (Hs : keyless s).
  { apply keyless_run; [exact Hkey|]. unfold keyless. now repeat split. }
  pose proof (keyless_step API_KEY Hkey ClickMain s Hs) as Hclick.
  destruct Hs as (H1 & H2 & H3 & H4 & H5 & H6 & _).
  repeat (split; [assumption|]).
  cbn. unfold click_main, startSession. rewrite H5, H6, Hkey. reflexivity.
Qed.

(** Clicks, a hang-up and stray settlements with an empty key. *)
Lemma no_key_no_session_witness :
  let s := run (Some "") [ClickMain; MicGranted 0; Stop; ClickMain; HandshakeOpen 0;
                          ContextClosed 0; SessionClose 0] init in
  tasks s = [] /\ world s = init_world /\ sent s = [] /\ saved s = []
  /\ isActive (view s) = false /\ isValidating (view s) = false
  /\ keyless (step (Some "") ClickMain s)
  /\ authError (view (step (Some "") ClickMain s)) = Some "No API key detected.".
Proof.
  intros s.
  exact (no_key_no_session (Some "")
           [ClickMain; MicGranted 0; Stop; ClickMain; HandshakeOpen 0;
            ContextClosed 0; SessionClose 0] eq_refl).
Defined.

(** *** A whole session *)

Lemma insert_snoc2 {A : Type} (l : list A) (a b x : A) :
  <[List.length l := x]> (l ++ [a; b]) = l ++ [x; b]
  /\ <[S (List.length l) := x]> (l ++ [a; b]) = l ++ [a; x].
Proof.
  split.
  - rewrite insert_app_r_alt by lia. now rewrite Nat.sub_diag.
  - rewrite insert_app_r_alt by lia.
    replace (S (List.length l) - List.length l) with 1 by lia. reflexivity.
Qed.

(** The record updates of the goal, computed. *)
Ltac records :=
  unfold upd_view, upd_world, set_task, set_view, set_world, set_tasks,
    set_mics, set_contexts, set_sockets, set_nodes, set_isActive, set_isValidating,
    set_audioContextRef, set_outputAudioContextRef, set_sessionRef,
    set_nextStartTimeRef, set_sourcesRef, set_micStreamRef;
  cbn [view world tasks sent saved mics contexts sockets nodes
       isActive isMuted authError isValidating userInput aiOutput
       audioContextRef outputAudioContextRef sessionRef nextStartTimeRef
       sourcesRef micStreamRef].

(** A session brought up from rest by the large button. *)
Lemma bring_up_from_rest (API_KEY : option string) (s : System) :
  truthy API_KEY = true ->
  quiet s ->
  run API_KEY (bring_up (List.length (tasks s))) s
  = {| view :=
         {| isActive := true; isMuted := isMuted (view s); authError := None;
            isValidating := false; userInput := ""; aiOutput := "";
            audioContextRef := Some (List.length (contexts (world s)));
            outputAudioContextRef := Some (S (List.length (contexts (world s))));
            sessionRef := Some (List.length (sockets (world s)));
            nextStartTimeRef := nextStartTimeRef (view s);
            sourcesRef := [];
            micStreamRef := Some (List.length (mics (world s))) |};
       world :=
         {| mics := mics (world s) ++ [TrackLive];
            contexts := contexts (world s) ++ [Running; Running];
            sockets := sockets (world s) ++ [Open];
            nodes := nodes (world s) |};
       tasks := tasks s ++ [Connected (isMuted (view s)) (List.length (mics (world s)))
                              (List.length (contexts (world s)))
                              (S (List.length (contexts (world s))))
                              (List.length (sockets (world s)))];
       sent := sent s; saved := saved s |}.
Proof.
  intros Hkey.
  destruct s as [[ia im ae iv ui ao acr oacr sr nst srcs msr] [ms cs ss ns] ts se sa].
  unfold quiet. cbn [view world tasks sent saved isActive isValidating sessionRef
                     micStreamRef audioContextRef outputAudioContextRef sourcesRef
                     isMuted nextStartTimeRef mics contexts sockets nodes].
  intros (-> & -> & -> & -> & -> & -> & ->).
  unfold bring_up. cbn [run].
  (* the click *)
  assert (H1 : step API_KEY ClickMain
                 {| view := {| isActive := false; isMuted := im; authError := ae;
                               isValidating := false; userInput := ui; aiOutput := ao;
                               audioContextRef := None; outputAudioContextRef := None;
                               sessionRef := None; nextStartTimeRef := nst;
                               sourcesRef := []; micStreamRef := None |};
                    world := {| mics := ms; contexts := cs; sockets := ss; nodes := ns |};
                    tasks := ts; sent := se; saved := sa |}
               = {| view := {| isActive := false; isMuted := im; authError := None;
                               isValidating := true; userInput := ""; aiOutput := "";
                               audioContextRef := None; outputAudioContextRef := None;
                               sessionRef := None; nextStartTimeRef := nst;
                               sourcesRef := []; micStreamRef := None |};
                    world := {| mics := ms; contexts := cs; sockets := ss; nodes := ns |};
                    tasks := ts ++ [AwaitMic im]; sent := se; saved := sa |}).
  { cbn. unfold click_main, startSession. cbn. now rewrite Hkey. }
  rewrite H1. clear H1. cbn [step].
  (* the microphone *)
  rewrite (mic_granted_eq (List.length ts) im) by apply lookup_snoc.
  records. rewrite insert_snoc.
  (* the two contexts resume *)
  rewrite (resumed_in_eq (List.length ts) im (List.length ms) (List.length cs)
             (S (List.length cs)))
    by (try apply lookup_snoc; unfold context_state; cbn [world contexts];
        now rewrite (proj1 (lookup_snoc2 cs Suspended Suspended))).
  records. rewrite insert_snoc, (proj1 (insert_snoc2 cs Suspended Suspended Running)).
  rewrite (resumed_out_eq (List.length ts) im (List.length ms) (List.length cs)
             (S (List.length cs)))
    by (try apply lookup_snoc; unfold context_state; cbn [world contexts];
        now rewrite (proj2 (lookup_snoc2 cs Running Suspended))).
  records. rewrite insert_snoc, (proj2 (insert_snoc2 cs Running Suspended Running)).
  (* the handshake *)
  rewrite (handshake_open_eq (List.length ts) im (List.length ms) (List.length cs)
             (S (List.length cs)) (List.length ss))
    by apply lookup_snoc.
  records. now rewrite !insert_snoc.
Qed.

(** The session of the call [k], in the refs and active, taken down by
    the large button. *)
Lemma take_down_settles (API_KEY : option string) (s : System) (k : nat)
    (muted : bool) (stream ic oc session : nat) :
  isActive (view s) = true -> isValidating (view s) = false ->
  sessionRef (view s) = Some session ->
  tasks s !! k = Some (Connected muted stream ic oc session) ->
  sockets (world s) !! session = Some Open ->
  let s' := run API_KEY (take_down k (List.length (tasks s))) s in
  view s' = stopped_view s
  /\ world s' = set_sockets (<[session := SocketClosed]> (sockets (world s)))
                  (stopped_world s).
Proof.
  intros Ha Hv Hs Hk Hsock. unfold take_down.
  cbn [run].
  assert (Hclick : step API_KEY ClickMain s = stop_input Fresh (released s)).
  { cbn. unfold click_main. now rewrite Hv, Ha, stopSession_eq. }
  rewrite Hclick.
  destruct (stop_input_settles API_KEY s) as (Hview & Hworld & _ & _ & Htasks).
  unfold settled in Hview, Hworld, Htasks. cbn [run] in Hview, Hworld, Htasks.
  match goal with |- context [step API_KEY (SessionClose k) ?x] => set (s2 := x) in * end.
  clearbody s2.
  assert (Hk2 : tasks s2 !! k = Some (Connected muted stream ic oc session)).
  { destruct Htasks as [-> | ->]; [exact Hk | now apply lookup_app_l_Some]. }
  assert (Hclosing : sockets (world s2) !! session = Some Closing).
  { rewrite Hworld. cbn. rewrite Hs. cbn. rewrite Hsock.
    apply list_lookup_insert_eq. eapply lookup_lt_Some; eauto. }
  cbn [step]. unfold deliver_close, task_session, socket_state.
  rewrite Hk2. cbn [session_of]. rewrite Hclosing. cbn [default].
  rewrite (stopSession_again s) by exact Hview.
  cbn [settle]. split; [exact Hview|].
  unfold upd_world, set_world. cbn [world]. rewrite Hworld.
  unfold set_sockets. cbn. rewrite Hs. cbn. rewrite Hsock.
  now rewrite list_insert_insert_eq.
Qed.

Lemma filter_snoc {A : Type} (f : A -> bool) (l : list A) (x : A) :
  List.length (List.filter f (l ++ [x]))
  = List.length (List.filter f l) + (if f x then 1 else 0).
Proof.
  rewrite List.filter_app, length_app. cbn. now destruct (f x).
Qed.

(** A session from rest and back, through the large button: brought up,
    it has one live track, two open contexts and one open session more
    than before; taken down, the stop and the close event of the
    session having settled, the component is at rest again, the track is
    ended, both contexts and the session are closed, and no more is live
    than before the session. *)
Theorem session_cycle_releases (API_KEY : option string) (s : System) :
  truthy API_KEY = true ->
  quiet s ->
  let k := List.length (tasks s) in
  let up := run API_KEY (bring_up k) s in
  let s' := run API_KEY (take_down k (List.length (tasks up))) up in
  isActive (view up) = true
  /\ live_tracks (world up) = S (live_tracks (world s))
  /\ open_contexts (world up) = S (S (open_contexts (world s)))
  /\ open_sessions (world up) = S (open_sessions (world s))
  /\ quiet s'
  /\ nextStartTimeRef (view s') = zero
  /\ mics (world s') = mics (world s) ++ [TrackEnded]
  /\ contexts (world s') = contexts (world s) ++ [Closed; Closed]
  /\ sockets (world s') = sockets (world s) ++ [SocketClosed]
  /\ nodes (world s') = nodes (world s)
  /\ live_tracks (world s') = live_tracks (world s)
  /\ open_contexts (world s') = open_contexts (world s)
  /\ open_sessions (world s') = open_sessions (world s).
Proof.
  intros Hkey Hquiet k up s'.
  pose proof (bring_up_from_rest API_KEY s Hkey Hquiet) as Hup.
  fold k in Hup. fold up in Hup. clearbody up.
  assert (Hdown : view s' = stopped_view up
                  /\ world s' = set_sockets
                                  (<[List.length (sockets (world s)) := SocketClosed]>
                                     (sockets (world up)))
                                  (stopped_world up)).
  { apply (take_down_settles API_KEY up k (isMuted (view s))
             (List.length (mics (world s))) (List.length (contexts (world s)))
             (S (List.length (contexts (world s)))) (List.length (sockets (world s))));
      rewrite Hup; try reflexivity; apply lookup_snoc. }
  destruct Hdown as (Hview & Hworld). clearbody s'. subst up.
  assert (Hm : mics (world s') = mics (world s) ++ [TrackEnded]).
  { rewrite Hworld. cbn. apply insert_snoc. }
  assert (Hc : contexts (world s') = contexts (world s) ++ [Closed; Closed]).
  { rewrite Hworld. cbn.
    rewrite (proj1 (insert_snoc2 _ Running Running Closed)).
    now rewrite (proj2 (insert_snoc2 _ Closed Running Closed)). }
  assert (Hs : sockets (world s') = sockets (world s) ++ [SocketClosed]).
  { rewrite Hworld. cbn. apply insert_snoc. }
  assert (Hn : nodes (world s') = nodes (world s)) by now rewrite Hworld.
  unfold live_tracks, open_contexts, open_sessions. rewrite Hm, Hc, Hs, Hview.
  cbn [world mics contexts sockets view isActive].
  change (contexts (world s) ++ [Running; Running])
    with (contexts (world s) ++ [Running] ++ [Running]).
  change (contexts (world s) ++ [Closed; Closed])
    with (contexts (world s) ++ [Closed] ++ [Closed]).
  rewrite !app_assoc, !filter_snoc. cbn [is_closed negb].
  repeat split; try lia; try (rewrite Hview; reflexivity); exact Hn.
Qed.

(** The first session of the component, then a second one. *)
Lemma session_cycle_releases_witness :
  let s := run (Some "key") (bring_up 0 ++ take_down 0 1) init in
  let k := List.length (tasks s) in
  let up := run (Some "key") (bring_up k) s in
  let s' := run (Some "key") (take_down k (List.length (tasks up))) up in
  k = 2
  /\ isActive (view up) = true
  /\ live_tracks (world up) = 1 /\ open_contexts (world up) = 2
  /\ open_sessions (world up) = 1
  /\ quiet s'
  /\ live_tracks (world s') = 0 /\ open_contexts (world s') = 0
  /\ open_sessions (world s') = 0.
Proof.
  intros s k up s'.
  assert (Hq : quiet s) by (vm_compute; repeat split).
  destruct (session_cycle_releases (Some "key") s eq_refl Hq)
    as (H1 & H2 & H3 & H4 & H5 & _ & _ & _ & _ & _ & H6 & H7 & H8).
  fold k up s' in H1, H2, H3, H4, H5, H6, H7, H8.
  split; [reflexivity|]. split; [exact H1|].
  split; [rewrite H2; reflexivity|]. split; [rewrite H3; reflexivity|].
  split; [rewrite H4; reflexivity|]. split; [exact H5|].
  split; [rewrite H6; reflexivity|]. split; [rewrite H7 | rewrite H8]; reflexivity.
Defined.

End LiveEdges.
